(** * Layout engine of the collage maker (main.py)

    A shallow embedding of [calculate_layout], of [resize_images] and of the
    part of [create_collage] that consumes the layout.

    Numbers.  Python [int] is [Z].  A Python [float] is a binary64 number,
    represented by [spec_float] with the operations of the Standard
    Library's [SpecFloat] at precision 53 and maximal exponent 1024: every
    float operation rounds to nearest, ties to even, and overflows to an
    infinity.  A Python number is a [num], an int or a float, and the
    arithmetic operators convert an int operand to float when the other
    operand is a float, as CPython does.  [sum] adds from left to right,
    one rounding per addition (CPython up to 3.11).

    Errors.  A Python exception is a value of [exn]; code that can raise
    returns a [result].

    Pillow.  An image is represented by its handle and its size; pixel data
    is not.  [img.resize] and [Image.new] raise ValueError on the sizes
    Pillow refuses.  Limits of memory (the length of a list, the number of
    pixels of an image) are not represented.

    Mutation.  [img_objects] is a list shared with the caller and updated
    in place by the dict branch: [calculate_layout] returns, next to its
    result, the list as the caller sees it after the call. *)

From Stdlib Require Import ZArith Lia SpecFloat.
From stdpp Require Import base option list strings sorting.

Open Scope Z_scope.

(** ** Exceptions and the error monad *)

Inductive exn : Type :=
| ValueError
| IndexError
| ZeroDivisionError
| OverflowError.

Inductive result (A : Type) : Type :=
| Ok (a : A)
| Raise (e : exn).

Arguments Ok {A} a.
Arguments Raise {A} e.

Definition bind {A B : Type} (m : result A) (k : A -> result B) : result B :=
  match m with
  | Ok a => k a
  | Raise e => Raise e
  end.

Notation "x <- m ;; k" := (bind m (fun x => k))
  (at level 100, m at next level, right associativity).

(** [for x in xs: st = body(x, st)], stopping at the first exception. *)
Fixpoint for_each {A St : Type} (body : A -> St -> result St)
    (xs : list A) (st : St) : result St :=
  match xs with
  | [] => Ok st
  | x :: xs' => st' <- body x st ;; for_each body xs' st'
  end.

(** A list comprehension whose element expression can raise. *)
Fixpoint map_result {A B : Type} (f : A -> result B) (xs : list A)
    : result (list B) :=
  match xs with
  | [] => Ok []
  | x :: xs' => y <- f x ;; ys <- map_result f xs' ;; Ok (y :: ys)
  end.

(** ** Python numbers *)

(** binary64: 53 bits of precision, exponents below 1024. *)
Definition prec : Z := 53.
Definition emax : Z := 1024.

Inductive num : Type :=
| PyInt (z : Z)
| PyFloat (f : spec_float).

(** The int [z] as a float with mantissa [|z|] and exponent 0, not yet
    rounded to 53 bits. *)
Definition Z2SF (z : Z) : spec_float :=
  match z with
  | Z0 => S754_zero false
  | Zpos p => S754_finite false p 0
  | Zneg p => S754_finite true p 0
  end.

(** The binary64 number nearest to the int [z], an infinity when [z] is
    out of range. *)
Definition float_of (z : Z) : spec_float := binary_normalize prec emax z 0 false.

(** [float(z)], the conversion the operators apply to an int operand:
    "OverflowError: int too large to convert to float". *)
Definition float_of_int (z : Z) : result spec_float :=
  match float_of z with
  | S754_infinity _ => Raise OverflowError
  | f => Ok f
  end.

Definition to_float (a : num) : result spec_float :=
  match a with
  | PyInt z => float_of_int z
  | PyFloat f => Ok f
  end.

(** [a + b] *)
Definition py_add (a b : num) : result num :=
  match a, b with
  | PyInt x, PyInt y => Ok (PyInt (x + y))
  | _, _ =>
      x <- to_float a ;; y <- to_float b ;;
      Ok (PyFloat (SFadd prec emax x y))
  end.

(** [a * b] *)
Definition py_mul (a b : num) : result num :=
  match a, b with
  | PyInt x, PyInt y => Ok (PyInt (x * y))
  | _, _ =>
      x <- to_float a ;; y <- to_float b ;;
      Ok (PyFloat (SFmul prec emax x y))
  end.

(** [a / b], true division.  On two ints the quotient of the integers is
    rounded once, and a quotient out of range is an OverflowError; with a
    float operand the division is the binary64 one. *)
Definition py_truediv (a b : num) : result num :=
  match a, b with
  | PyInt x, PyInt y =>
      if y =? 0 then Raise ZeroDivisionError
      else match SFdiv prec emax (Z2SF x) (Z2SF y) with
           | S754_infinity _ => Raise OverflowError
           | f => Ok (PyFloat f)
           end
  | _, _ =>
      x <- to_float a ;; y <- to_float b ;;
      match y with
      | S754_zero _ => Raise ZeroDivisionError
      | _ => Ok (PyFloat (SFdiv prec emax x y))
      end
  end.

(** [a // b] on ints: floor division. *)
Definition py_floordiv (a b : Z) : result Z :=
  if b =? 0 then Raise ZeroDivisionError else Ok (a / b).

(** The order between a float and an int, both taken exactly. *)
Definition SFcompare_Z (f : spec_float) (z : Z) : option comparison :=
  match f with
  | S754_nan => None
  | S754_infinity s => Some (if s then Lt else Gt)
  | S754_zero _ => Some (0 ?= z)
  | S754_finite s m e =>
      let v := if s then Z.neg m else Z.pos m in
      Some (if 0 <=? e then v * 2 ^ e ?= z else v ?= z * 2 ^ (- e))
  end.

(** [a > b] *)
Definition py_gt (a b : num) : bool :=
  match a, b with
  | PyInt x, PyInt y => y <? x
  | PyFloat x, PyFloat y => SFltb y x
  | PyFloat x, PyInt y =>
      match SFcompare_Z x y with Some Gt => true | _ => false end
  | PyInt x, PyFloat y =>
      match SFcompare_Z y x with Some Lt => true | _ => false end
  end.

(** [max(a, b)] keeps [a] unless [b > a]. *)
Definition py_max_num (a b : num) : num := if py_gt b a then b else a.
Definition py_max (a b : Z) : Z := if a <? b then b else a.

(** [int(a)]: truncation toward zero. *)
Definition py_int (a : num) : result Z :=
  match a with
  | PyInt z => Ok z
  | PyFloat S754_nan => Raise ValueError
  | PyFloat (S754_infinity _) => Raise OverflowError
  | PyFloat (S754_zero _) => Ok 0
  | PyFloat (S754_finite s m e) =>
      let t := if 0 <=? e then Z.pos m * 2 ^ e else Z.pos m / 2 ^ (- e) in
      Ok (if s then - t else t)
  end.

(** [math.ceil(a)] *)
Definition math_ceil (a : num) : result Z :=
  match a with
  | PyInt z => Ok z
  | PyFloat S754_nan => Raise ValueError
  | PyFloat (S754_infinity _) => Raise OverflowError
  | PyFloat (S754_zero _) => Ok 0
  | PyFloat (S754_finite s m e) =>
      if 0 <=? e then Ok ((if s then Z.neg m else Z.pos m) * 2 ^ e)
      else Ok (- ((if s then Z.pos m else Z.neg m) / 2 ^ (- e)))
  end.

(** [sum(xs)]: left to right, starting from the int 0. *)
Fixpoint py_sum_from (acc : num) (xs : list num) : result num :=
  match xs with
  | [] => Ok acc
  | x :: xs' => acc' <- py_add acc x ;; py_sum_from acc' xs'
  end.

Definition py_sum_num (xs : list num) : result num := py_sum_from (PyInt 0) xs.

(** The operations on numbers are unfolded in the lemmas about them
    only. *)
Arguments py_add : simpl never.
Arguments py_mul : simpl never.
Arguments py_truediv : simpl never.
Arguments py_int : simpl never.
Arguments math_ceil : simpl never.
Arguments py_max_num : simpl never.

(** [sum(xs)] on ints. *)
Definition py_sum (xs : list Z) : Z := fold_left Z.add xs 0.

(** ** Python lists *)

Definition py_len {A : Type} (l : list A) : Z := Z.of_nat (length l).

(** [range(a, b)] and [range(n)]. *)
Definition py_range (a b : Z) : list Z :=
  map (fun k => a + Z.of_nat k) (seq 0 (Z.to_nat (b - a))).

(** [[x] * n]: empty when [n <= 0]. *)
Definition py_repeat {A : Type} (x : A) (n : Z) : list A :=
  replicate (Z.to_nat n) x.

(** The position an index denotes: a negative index counts from the end. *)
Definition py_norm_index {A : Type} (l : list A) (i : Z) : result nat :=
  if (0 <=? i) && (i <? py_len l) then Ok (Z.to_nat i)
  else if (- py_len l <=? i) && (i <? 0) then Ok (Z.to_nat (py_len l + i))
  else Raise IndexError.

(** [l[i]]. *)
Definition py_getitem {A : Type} (l : list A) (i : Z) : result A :=
  n <- py_norm_index l i ;;
  match l !! n with
  | Some x => Ok x
  | None => Raise IndexError
  end.

(** [l[i] = v]. *)
Definition py_setitem {A : Type} (l : list A) (i : Z) (v : A)
    : result (list A) :=
  n <- py_norm_index l i ;; Ok (<[n := v]> l).

(** A slice bound: negative bounds count from the end, and the result is
    clamped to [0, len]. *)
Definition py_clamp {A : Type} (l : list A) (i : Z) : nat :=
  let i' := if i <? 0 then i + py_len l else i in
  Z.to_nat (Z.min (Z.max i' 0) (py_len l)).

(** [l[a:b]]. *)
Definition py_getslice {A : Type} (l : list A) (a b : Z) : list A :=
  let lo := py_clamp l a in
  let hi := py_clamp l b in
  take (hi - lo) (drop lo l).

(** [l[a:b] = new]. *)
Definition py_setslice {A : Type} (l : list A) (a b : Z) (new : list A)
    : list A :=
  let lo := py_clamp l a in
  let hi := Nat.max lo (py_clamp l b) in
  take lo l ++ new ++ drop hi l.

(** [l.index(x)]: the first position holding a value equal to [x]. *)
Fixpoint py_index `{EqDecision A} (x : A) (l : list A) : result Z :=
  match l with
  | [] => Raise ValueError
  | y :: l' =>
      if decide (y = x) then Ok 0
      else i <- py_index x l' ;; Ok (1 + i)
  end.

(** [enumerate(l)] *)
Definition py_enumerate {A : Type} (l : list A) : list (Z * A) :=
  imap (fun i a => (Z.of_nat i, a)) l.

(** ** Data *)

(** An image handle.  [Image.open(path)] gives [Opened path w h]; a handle
    made by [img.resize] is [Resized img w h].  Pixel data is not
    represented. *)
Inductive image : Type :=
| Opened (path : string) (w h : Z)
| Resized (src : image) (w h : Z).

(** [img.size] *)
Definition size (img : image) : Z * Z :=
  match img with
  | Opened _ w h => (w, h)
  | Resized _ w h => (w, h)
  end.

(** [img.resize(new_size, Image.Resampling.LANCZOS)].  Pillow returns a copy
    when the size is the image's own, and otherwise refuses a width or a
    height below 1 ("height and width must be > 0"). *)
Definition resize (img : image) (new_size : Z * Z) : result image :=
  if decide (size img = new_size)
  then Ok (Resized img (fst new_size) (snd new_size))
  else if (fst new_size <? 1) || (snd new_size <? 1) then Raise ValueError
  else Ok (Resized img (fst new_size) (snd new_size)).

(** [Image.new("RGBA", size, color)]: Pillow refuses a negative width or
    height ("Width and height must be >= 0").  The canvas itself is not
    represented. *)
Definition Image_new (size : Z * Z) : result unit :=
  if (fst size <? 0) || (snd size <? 0) then Raise ValueError else Ok tt.

(** One entry of [rule["layout"]["images"]]: the keys "row" and "col", and
    "span" when present.  Two entries are equal as dicts when they agree
    on all three. *)
Record config : Type := Config {
  cfg_row : Z;
  cfg_col : Z;
  cfg_span : option Z
}.

#[global] Instance config_eq_dec : EqDecision config.
Proof. solve_decision. Defined.

(** [rule["layout"]] *)
Record layout_dict : Type := LayoutDict {
  rows : Z;
  columns : Z;
  images : list config
}.

(** The [rule] argument: a dict, an int, or any other Python value
    ([None] is the default of [create_collage]). *)
Inductive rule : Type :=
| RDict (d : layout_dict)
| RInt (n : Z)
| ROther.

(** One entry [{"x": x, "y": y}] of the returned layout. *)
Record position : Type := Position { x : Z; y : Z }.

(** [config["row"] - 1], [config["col"] - 1], [config.get("span", 1)] *)
Definition row_of (c : config) : Z := cfg_row c - 1.
Definition col_of (c : config) : Z := cfg_col c - 1.
Definition span_of (c : config) : Z := default 1 (cfg_span c).

(** ** resize_images *)

(** [[img.resize(target_size, LANCZOS) if img.size != target_size else img
     for img in images]] *)
Definition resize_images (imgs : list image) (target_size : Z * Z)
    : result (list image) :=
  map_result (fun img =>
                if decide (size img = target_size) then Ok img
                else resize img target_size)
             imgs.

(** ** calculate_layout, int branch *)

Definition grid_layout (img_objects : list image) (n : Z) (margin_spacing : Z)
    : result (list position * Z * Z) :=
  let img_sizes := map size img_objects in
  avg_width <- py_floordiv (py_sum (map fst img_sizes)) (py_len img_sizes) ;;
  avg_height <- py_floordiv (py_sum (map snd img_sizes)) (py_len img_sizes) ;;
  rows <- (if n =? 0 then Ok 1
           else q <- py_truediv (PyInt (py_len img_objects)) (PyInt n) ;;
                math_ceil q) ;;
  let cols := if n =? 0 then py_len img_objects else n in
  let collage_w :=
    cols * avg_width + (cols - 1) * margin_spacing + 2 * margin_spacing in
  let collage_h :=
    rows * avg_height + (rows - 1) * margin_spacing + 2 * margin_spacing in
  let layout :=
    flat_map (fun row =>
      map (fun col =>
        {| x := margin_spacing + col * (avg_width + margin_spacing);
           y := margin_spacing + row * (avg_height + margin_spacing) |})
        (py_range 0 cols))
      (py_range 0 rows) in
  Ok (layout, collage_w, collage_h).

(** ** calculate_layout, dict branch *)

(** Body of the first loop over [configs]: column widths and row heights.
    [st] holds the local lists [col_widths] and [row_heights]. *)
Definition sizing_step (configs : list config) (img_objects : list image)
    (margin_spacing : Z) (config : config) (st : list num * list Z)
    : result (list num * list Z) :=
  let col_widths := fst st in
  let row_heights := snd st in
  let row := row_of config in
  let col := col_of config in
  let span := span_of config in
  i <- py_index config configs ;;
  img <- py_getitem img_objects i ;;
  let w := fst (size img) in
  let h := snd (size img) in
  scaled_w <- py_truediv (PyInt (w + (span - 1) * margin_spacing))
                         (PyInt span) ;;
  new <- map_result
           (fun c => cur <- py_getitem col_widths c ;;
                     Ok (py_max_num cur scaled_w))
           (py_range col (col + span)) ;;
  let col_widths := py_setslice col_widths col (col + span) new in
  cur <- py_getitem row_heights row ;;
  row_heights <- py_setitem row_heights row (py_max cur h) ;;
  Ok (col_widths, row_heights).

(** Lines 67 to 74 for one config: the size the image is resized to. *)
Definition rescaled_size (col_widths : list num) (margin_spacing : Z)
    (config : config) (img : image) : result (Z * Z) :=
  let col := col_of config in
  let span := span_of config in
  let w := fst (size img) in
  let h := snd (size img) in
  s <- py_sum_num (py_getslice col_widths col (col + span)) ;;
  total <- py_add s (PyInt ((span - 1) * margin_spacing)) ;;
  scale <- py_truediv total (PyInt w) ;;
  ws <- py_mul (PyInt w) scale ;;
  new_w <- py_int ws ;;
  hs <- py_mul (PyInt h) scale ;;
  new_h <- py_int hs ;;
  Ok (new_w, new_h).

(** Body of the second loop over [configs]: the image of the config is
    replaced in [img_objects] by its resized handle.  The list is returned
    as it stands when the body ends or raises. *)
Definition rescale_step (configs : list config) (col_widths : list num)
    (margin_spacing : Z) (config : config)
    (row_heights : list Z) (img_objects : list image)
    : result (list Z) * list image :=
  let row := row_of config in
  match
    (i <- py_index config configs ;;
     img <- py_getitem img_objects i ;;
     new_size <- rescaled_size col_widths margin_spacing config img ;;
     img' <- resize img new_size ;;
     img_objects' <- py_setitem img_objects i img' ;;
     Ok (snd new_size, img_objects'))
  with
  | Raise e => (Raise e, img_objects)
  | Ok (new_h, img_objects') =>
      (cur <- py_getitem row_heights row ;;
       py_setitem row_heights row (py_max cur new_h),
       img_objects')
  end.

Fixpoint rescale_loop
    (body : config -> list Z -> list image -> result (list Z) * list image)
    (todo : list config) (row_heights : list Z) (img_objects : list image)
    : result (list Z) * list image :=
  match todo with
  | [] => (Ok row_heights, img_objects)
  | config :: rest =>
      match body config row_heights img_objects with
      | (Ok row_heights', img_objects') =>
          rescale_loop body rest row_heights' img_objects'
      | (Raise e, img_objects') => (Raise e, img_objects')
      end
  end.

(** The innermost loop of the position scan: does some config name the
    cell [(row_i, col_i)]? *)
Definition cell_claimed (configs : list config) (row_i col_i : Z) : bool :=
  existsb (fun config =>
             (row_of config =? row_i) && (col_of config =? col_i)) configs.

(** [int(col_w + margin_spacing)], by which [x] advances. *)
Definition column_step (margin_spacing : Z) (col_w : num) : result Z :=
  s <- py_add col_w (PyInt margin_spacing) ;; py_int s.

(** [for col_i, col_w in enumerate(col_widths)], from column [col_i] on. *)
Fixpoint scan_columns (configs : list config) (margin_spacing : Z)
    (row_i y : Z) (col_i : Z) (col_widths : list num) (x : Z)
    : result (list position) :=
  match col_widths with
  | [] => Ok []
  | col_w :: rest =>
      let here :=
        if cell_claimed configs row_i col_i then [Position x y] else [] in
      dx <- column_step margin_spacing col_w ;;
      more <- scan_columns configs margin_spacing row_i y (col_i + 1) rest
                (x + dx) ;;
      Ok (here ++ more)
  end.

(** [for row_i, row_h in enumerate(row_heights)], from row [row_i] on.
    The row heights are ints, and so is [row_h + margin_spacing]. *)
Fixpoint scan_rows (configs : list config) (col_widths : list num)
    (margin_spacing : Z) (row_i : Z) (row_heights : list Z) (y : Z)
    : result (list position) :=
  match row_heights with
  | [] => Ok []
  | row_h :: rest =>
      here <- scan_columns configs margin_spacing row_i y 0 col_widths
                margin_spacing ;;
      more <- scan_rows configs col_widths margin_spacing (row_i + 1) rest
                (y + (row_h + margin_spacing)) ;;
      Ok (here ++ more)
  end.

(** Lines 81 to 94: the canvas, then the positions. *)
Definition canvas_and_positions (configs : list config) (rows cols : Z)
    (col_widths : list num) (row_heights : list Z) (margin_spacing : Z)
    : result (list position * Z * Z) :=
  s <- py_sum_num col_widths ;;
  t <- py_add s (PyInt ((cols + 1) * margin_spacing)) ;;
  collage_w <- py_int t ;;
  let collage_h := py_sum row_heights + (rows + 1) * margin_spacing in
  layout <- scan_rows configs col_widths margin_spacing 0 row_heights
              margin_spacing ;;
  Ok (layout, collage_w, collage_h).

Definition explicit_layout (d : layout_dict) (img_objects : list image)
    (margin_spacing : Z)
    : result (list position * Z * Z) * list image :=
  let rows := rows d in
  let cols := columns d in
  let configs := images d in
  let row_heights := py_repeat 0 rows in
  let col_widths := py_repeat (PyInt 0) cols in
  match for_each (sizing_step configs img_objects margin_spacing) configs
          (col_widths, row_heights) with
  | Raise e => (Raise e, img_objects)
  | Ok (col_widths, row_heights) =>
      match rescale_loop (rescale_step configs col_widths margin_spacing)
              configs row_heights img_objects with
      | (Raise e, img_objects') => (Raise e, img_objects')
      | (Ok row_heights, img_objects') =>
          (canvas_and_positions configs rows cols col_widths row_heights
             margin_spacing,
           img_objects')
      end
  end.

(** ** calculate_layout

    The second component is [img_objects] after the call. *)
Definition calculate_layout (rule : rule) (img_objects : list image)
    (margin_spacing : Z)
    : result (list position * Z * Z) * list image :=
  match rule with
  | RDict d => explicit_layout d img_objects margin_spacing
  | RInt n => (grid_layout img_objects n margin_spacing, img_objects)
  | ROther => (Raise ValueError, img_objects)
  end.

(** ** create_collage

    Lines 138 to 153, as a function of the images that lines 133 to 140
    have found and opened, with [corner_radius] at its default 0: the
    creation of the output directory, the directory scan, the opening of
    the files and the saving of the collage are not represented.  The
    result lists, in paste order, each image handle with the position it
    is pasted at, and gives the size of the canvas. *)
Definition create_collage (img_objects : list image) (margin_spacing : Z)
    (rule : rule) : result (list (image * position) * (Z * Z)) :=
  match img_objects with
  | [] => Raise ValueError
  | _ =>
      match calculate_layout rule img_objects margin_spacing with
      | (Raise e, _) => Raise e
      | (Ok (layout, collage_w, collage_h), img_objects') =>
          _ <- Image_new (collage_w, collage_h) ;;
          pasted <- map_result
                      (fun ia => p <- py_getitem layout (fst ia) ;;
                                 Ok (snd ia, p))
                      (py_enumerate img_objects') ;;
          Ok (pasted, (collage_w, collage_h))
      end
  end.

(** * Notions the properties are stated with *)

(** ** The grid calculator's cells *)

(** The floor average of the widths, and of the heights. *)
Definition cell_width (img_objects : list image) : Z :=
  py_sum (map fst (map size img_objects)) / py_len img_objects.

Definition cell_height (img_objects : list image) : Z :=
  py_sum (map snd (map size img_objects)) / py_len img_objects.

(** The positions of a grid of [rows] by [cols] cells, row by row. *)
Definition grid_cells (rows cols cw ch s : Z) : list position :=
  flat_map (fun row =>
    map (fun col => {| x := s + col * (cw + s); y := s + row * (ch + s) |})
      (py_range 0 cols))
    (py_range 0 rows).

(** Sizes as an image file has them: both sides at least 1. *)
Definition positive_size (sz : Z * Z) : Prop := 1 <= fst sz /\ 1 <= snd sz.

#[global] Instance positive_size_dec (sz : Z * Z) : Decision (positive_size sz).
Proof. unfold positive_size. apply _. Defined.

(** ** The explicit calculator as the specification words it

    [Spec] follows section 4.2 of the specification: config [i] describes
    image [i] and every image is measured once.  The arithmetic is that of
    the program's numbers: "real division" is [py_truediv], sums and
    products are those of [num], and truncation is [py_int]. *)
Module Spec.

(** scaledWidth = (imageWidth + (s-1)*spacing) / s, real division *)
Definition scaledWidth (spacing : Z) (cfg : config) (sz : Z * Z)
    : result num :=
  py_truediv (PyInt (fst sz + (span_of cfg - 1) * spacing))
             (PyInt (span_of cfg)).

(** For every column index in [c, c+s): colWidth[index] =
    max(current value, scaledWidth). *)
Definition widen (c s : Z) (scaled : num) (colWidth : list num) : list num :=
  imap (fun index cur =>
          if (c <=? Z.of_nat index) && (Z.of_nat index <? c + s)
          then py_max_num cur scaled else cur)
       colWidth.

(** rowHeight[r] = max(current value, height) *)
Definition raise_row (r : Z) (height : Z) (rowHeight : list Z) : list Z :=
  imap (fun index cur =>
          if Z.of_nat index =? r then py_max cur height else cur)
       rowHeight.

(** Pass 1 (sizing). *)
Fixpoint pass1 (spacing : Z) (configs : list config) (sizes : list (Z * Z))
    (colWidth : list num) (rowHeight : list Z)
    : result (list num * list Z) :=
  match configs, sizes with
  | cfg :: configs', sz :: sizes' =>
      scaled <- scaledWidth spacing cfg sz ;;
      pass1 spacing configs' sizes'
        (widen (col_of cfg) (span_of cfg) scaled colWidth)
        (raise_row (row_of cfg) (snd sz) rowHeight)
  | _, _ => Ok (colWidth, rowHeight)
  end.

(** total = sum(colWidth[c..c+s)) + (s-1)*spacing *)
Definition total (spacing : Z) (colWidth : list num) (cfg : config)
    : result num :=
  s <- py_sum_num (take (Z.to_nat (span_of cfg))
                     (drop (Z.to_nat (col_of cfg)) colWidth)) ;;
  py_add s (PyInt ((span_of cfg - 1) * spacing)).

(** New size = (trunc(w*scale), trunc(h*scale)), scale = total / w. *)
Definition new_size (spacing : Z) (colWidth : list num) (cfg : config)
    (sz : Z * Z) : result (Z * Z) :=
  t <- total spacing colWidth cfg ;;
  scale <- py_truediv t (PyInt (fst sz)) ;;
  ws <- py_mul (PyInt (fst sz)) scale ;;
  new_w <- py_int ws ;;
  hs <- py_mul (PyInt (snd sz)) scale ;;
  new_h <- py_int hs ;;
  Ok (new_w, new_h).

(** The new size of every image, config [i] rescaling image [i]. *)
Fixpoint new_sizes (spacing : Z) (colWidth : list num)
    (configs : list config) (sizes : list (Z * Z)) : result (list (Z * Z)) :=
  match configs, sizes with
  | cfg :: configs', sz :: sizes' =>
      n <- new_size spacing colWidth cfg sz ;;
      ns <- new_sizes spacing colWidth configs' sizes' ;;
      Ok (n :: ns)
  | _, _ => Ok []
  end.

(** Pass 2 (rescaling): rowHeight[r] = max(rowHeight[r], newHeight). *)
Fixpoint pass2 (configs : list config) (newSizes : list (Z * Z))
    (rowHeight : list Z) : list Z :=
  match configs, newSizes with
  | cfg :: configs', n :: newSizes' =>
      pass2 configs' newSizes' (raise_row (row_of cfg) (snd n) rowHeight)
  | _, _ => rowHeight
  end.

(** The images after pass 2: image [i] at its new size. *)
Definition rescaled (imgs : list image) (newSizes : list (Z * Z))
    : list image :=
  zip_with (fun img n => Resized img (fst n) (snd n)) imgs newSizes.

(** Canvas size: width = sum(colWidth) + (columns+1)*spacing, height =
    sum(rowHeight) + (rows+1)*spacing, both truncated to integers. *)
Definition canvas (spacing rows cols : Z) (colWidth : list num)
    (rowHeight : list Z) : result (Z * Z) :=
  s <- py_sum_num colWidth ;;
  t <- py_add s (PyInt ((cols + 1) * spacing)) ;;
  width <- py_int t ;;
  height <- py_int (PyInt (py_sum rowHeight + (rows + 1) * spacing)) ;;
  Ok (width, height).

(** What the two passes give for a rule and the sizes of the images. *)
Record outcome : Type := Outcome {
  colWidth : list num;
  newSize : list (Z * Z);
  rowHeight : list Z;
  canvasSize : Z * Z
}.

Definition two_passes (spacing : Z) (d : layout_dict) (sizes : list (Z * Z))
    : result outcome :=
  p1 <- pass1 spacing (images d) sizes
          (replicate (Z.to_nat (columns d)) (PyInt 0))
          (replicate (Z.to_nat (rows d)) 0) ;;
  ns <- new_sizes spacing (fst p1) (images d) sizes ;;
  let rh := pass2 (images d) ns (snd p1) in
  c <- canvas spacing (rows d) (columns d) (fst p1) rh ;;
  Ok {| colWidth := fst p1; newSize := ns; rowHeight := rh;
        canvasSize := c |}.

(** Position assignment: x advances by (colWidth[c]+spacing), truncated,
    column after column. *)
Definition steps (spacing : Z) (colWidth : list num) : result (list Z) :=
  map_result (column_step spacing) colWidth.

End Spec.

(** ** Floats that are numbers *)

(** A float that is neither an infinity nor a NaN. *)
Definition finite_or_zero (f : spec_float) : Prop :=
  match f with
  | S754_zero _ | S754_finite _ _ _ => True
  | _ => False
  end.

(** ** Valid rules *)

(** A config whose cell and span lie in the declared grid. *)
Definition in_grid (d : layout_dict) (c : config) : Prop :=
  1 <= cfg_row c <= rows d /\ 1 <= cfg_col c /\ 1 <= span_of c /\
  cfg_col c + span_of c - 1 <= columns d.

(** A valid explicit rule for a list of images: one config per image, every
    config in the grid, no two configs equal, sizes positive. *)
Record valid_rule (d : layout_dict) (img_objects : list image) : Prop := {
  valid_length : length (images d) = length img_objects;
  valid_in_grid : Forall (in_grid d) (images d);
  valid_distinct : NoDup (images d);
  valid_sizes :
    Forall (fun img => 0 < fst (size img) /\ 0 < snd (size img)) img_objects
}.

(** Numbers far inside the range of binary64: a spacing and image widths
    below [2^1000] in absolute value keep every quotient of the first loop
    finite. *)
Definition in_float_range (z : Z) : Prop := Z.abs z < 2 ^ 1000.

(** ** The position scan *)

(** The cell a config names, as the 0-based indices the loops use. *)
Definition cell_of (c : config) : Z * Z := (row_of c, col_of c).

(** The cells of a grid in scan order: rows top to bottom, columns left to
    right. *)
Definition grid_scan (row_i n_rows n_cols : Z) : list (Z * Z) :=
  r ← seqZ row_i n_rows; (fun c => (r, c)) <$> seqZ 0 n_cols.

Definition claimed (configs : list config) (rc : Z * Z) : Prop :=
  cell_claimed configs (fst rc) (snd rc) = true.

#[global] Instance claimed_dec configs rc : Decision (claimed configs rc).
Proof. unfold claimed. apply _. Defined.

(** ** What is pasted where *)

(** Every pasted image lies inside the canvas. *)
Definition contained (out : list (image * position) * (Z * Z)) : Prop :=
  Forall (fun ip =>
            x (snd ip) + fst (size (fst ip)) <= fst (snd out) /\
            y (snd ip) + snd (size (fst ip)) <= snd (snd out))
         (fst out).

#[global] Instance contained_dec out : Decision (contained out).
Proof. unfold contained. apply _. Defined.

(** ** Where the position scan stands *)

(** [x] when the scan reaches column [c] of a row: the spacing, plus the
    step of every column before it. *)
Definition column_x (steps : list Z) (margin_spacing : Z) (c : nat) : Z :=
  margin_spacing + py_sum (take c steps).

(** [y] when the scan reaches row [r]: the spacing, plus
    [row_h + margin_spacing] for every row before it. *)
Definition row_y (row_heights : list Z) (margin_spacing : Z) (r : nat) : Z :=
  margin_spacing
  + py_sum (map (fun row_h => row_h + margin_spacing) (take r row_heights)).

(** The position the scan has when it visits a cell. *)
Definition cell_position (steps : list Z) (row_heights : list Z)
    (margin_spacing : Z) (rc : Z * Z) : position :=
  {| x := column_x steps margin_spacing (Z.to_nat (snd rc));
     y := row_y row_heights margin_spacing (Z.to_nat (fst rc)) |}.

(** The order in which the scan visits cells: by row, then by column. *)
Definition scan_before (a b : Z * Z) : Prop :=
  fst a < fst b \/ (fst a = fst b /\ snd a < snd b).

(** ** Rules and images of the examples *)

(** A banner over two cells. *)
Definition two_row_rule : layout_dict :=
  {| rows := 2; columns := 2;
     images := [Config 1 1 (Some 2); Config 2 1 None; Config 2 2 None] |}.

Definition three_images : list image :=
  [Opened "a.png" 100 50; Opened "b.png" 60 40; Opened "c.png" 40 40].

Definition square_and_oblong : list image :=
  [Opened "a.png" 100 100; Opened "b.png" 200 100; Opened "c.png" 100 200].

(** A rule that lists the image of column 2 before the image of
    column 1. *)
Definition swapped_rule : layout_dict :=
  {| rows := 1; columns := 2; images := [Config 1 2 None; Config 1 1 None] |}.

Definition two_images : list image :=
  [Opened "a.png" 100 50; Opened "b.png" 60 40].

(** Two configs with the same content. *)
Definition twin_rule : layout_dict :=
  {| rows := 1; columns := 1; images := [Config 1 1 None; Config 1 1 None] |}.

Definition narrow_and_wide : list image :=
  [Opened "a.png" 100 100; Opened "b.png" 200 100].

(** A rule that lists the image of column 3 before the image spanning
    columns 1 and 2. *)
Definition wide_first_rule : layout_dict :=
  {| rows := 1; columns := 3;
     images := [Config 1 3 None; Config 1 1 (Some 2)] |}.

Definition small_and_wide : list image :=
  [Opened "a.png" 10 10; Opened "b.png" 200 100].

Definition one_cell_rule : layout_dict :=
  {| rows := 1; columns := 1; images := [Config 1 1 None] |}.

Definition empty_rule : layout_dict :=
  {| rows := 1; columns := 1; images := [] |}.

Definition overlong_span_rule : layout_dict :=
  {| rows := 1; columns := 2;
     images := [Config 1 1 None; Config 1 2 (Some 2)] |}.

(** Two configs, told apart by their span, that name the same cell. *)
Definition shared_cell_rule : layout_dict :=
  {| rows := 1; columns := 2;
     images := [Config 1 1 None; Config 1 1 (Some 2)] |}.

(** A rule whose second config has span 0. *)
Definition zero_span_rule : layout_dict :=
  {| rows := 1; columns := 2;
     images := [Config 1 1 None; Config 1 2 (Some 0)] |}.

(** A rule whose second config names a row below the last one. *)
Definition third_row_rule : layout_dict :=
  {| rows := 2; columns := 1;
     images := [Config 1 1 None; Config 3 1 None] |}.

(** One image across eleven columns. *)
Definition eleven_column_rule : layout_dict :=
  {| rows := 1; columns := 11; images := [Config 1 1 (Some 11)] |}.

Definition flat_image : list image := [Opened "a.png" 15 1].

(** * Properties *)

(** ** Python lists: basic facts *)

Section py_lists.
  Context {A : Type}.
  Implicit Types (l : list A) (i : Z).

Lemma py_len_nonneg l : 0 <= py_len l.
Proof. unfold py_len. lia. Qed.

Lemma py_norm_index_nonneg l i :
  0 <= i < py_len l -> py_norm_index l i = Ok (Z.to_nat i).
Proof.
  intros [H0 H1]. unfold py_norm_index.
  destruct (Z.leb_spec 0 i); [|lia].
  destruct (Z.ltb_spec i (py_len l)); [|lia]. reflexivity.
Qed.

Lemma py_norm_index_ge l i :
  py_len l <= i -> py_norm_index l i = Raise IndexError.
Proof.
  intros H. pose proof (py_len_nonneg l). unfold py_norm_index.
  destruct (Z.ltb_spec i (py_len l)); [lia|].
  destruct (Z.ltb_spec i 0); [lia|].
  rewrite !andb_false_r. reflexivity.
Qed.

Lemma py_norm_index_ge_or_lt l i :
  py_len l <= i \/ i < - py_len l -> py_norm_index l i = Raise IndexError.
Proof.
  intros H. pose proof (py_len_nonneg l). unfold py_norm_index.
  destruct (Z.leb_spec 0 i), (Z.ltb_spec i (py_len l)),
    (Z.leb_spec (- py_len l) i), (Z.ltb_spec i 0);
    simpl; try reflexivity; lia.
Qed.

Lemma py_norm_index_nil i : py_norm_index (@nil A) i = Raise IndexError.
Proof.
  apply py_norm_index_ge_or_lt. unfold py_len. simpl. lia.
Qed.

Lemma py_getitem_nonneg l i :
  0 <= i < py_len l ->
  exists a, l !! Z.to_nat i = Some a /\ py_getitem l i = Ok a.
Proof.
  intros H. unfold py_getitem. rewrite py_norm_index_nonneg by exact H.
  simpl. destruct (lookup_lt_is_Some_2 l (Z.to_nat i)) as [a Ha].
  { unfold py_len in H. lia. }
  exists a. rewrite Ha. auto.
Qed.

Lemma py_getitem_lookup l i a :
  0 <= i -> l !! Z.to_nat i = Some a -> py_getitem l i = Ok a.
Proof.
  intros H0 Ha. apply lookup_lt_Some in Ha as Hlt.
  destruct (py_getitem_nonneg l i) as (b & Hb & ->).
  { unfold py_len. lia. }
  congruence.
Qed.

Lemma py_getitem_ge l i : py_len l <= i -> py_getitem l i = Raise IndexError.
Proof. intros H. unfold py_getitem. rewrite py_norm_index_ge; auto. Qed.

Lemma py_getitem_nil i : py_getitem (@nil A) i = Raise IndexError.
Proof. unfold py_getitem. rewrite py_norm_index_nil. reflexivity. Qed.

Lemma py_setitem_nonneg l i v :
  0 <= i < py_len l -> py_setitem l i v = Ok (<[Z.to_nat i := v]> l).
Proof.
  intros H. unfold py_setitem. rewrite py_norm_index_nonneg by exact H.
  reflexivity.
Qed.
End py_lists.

Lemma py_range_length a b : length (py_range a b) = Z.to_nat (b - a).
Proof. unfold py_range. rewrite length_map, length_seq. reflexivity. Qed.

Lemma py_range_lookup a b (k : nat) :
  (k < Z.to_nat (b - a))%nat -> py_range a b !! k = Some (a + Z.of_nat k).
Proof.
  intros H. unfold py_range. rewrite list_lookup_fmap.
  rewrite lookup_seq_lt by exact H. reflexivity.
Qed.

(** A row-major table: entry [k] of the concatenated rows is entry
    [k mod c] of row [k / c]. *)
Lemma lookup_flat_map_rows {A B : Type} (g : A -> list B) (c : nat)
    (l : list A) (k : nat) (a : A) :
  (forall r, length (g r) = c) -> (0 < c)%nat ->
  l !! (k / c)%nat = Some a ->
  flat_map g l !! k = g a !! (k mod c)%nat.
Proof.
  intros Hlen Hc. revert k. induction l as [|r l IH]; intros k Hk.
  - rewrite lookup_nil in Hk. discriminate.
  - simpl. destruct (Nat.lt_ge_cases k c) as [Hlt|Hge].
    + rewrite Nat.div_small in Hk by exact Hlt. simpl in Hk.
      injection Hk as ->. rewrite Nat.mod_small by exact Hlt.
      apply lookup_app_l. rewrite Hlen. exact Hlt.
    + rewrite lookup_app_r by (rewrite Hlen; exact Hge).
      rewrite Hlen.
      assert (Hdiv : (k / c = S ((k - c) / c))%nat).
      { replace k with ((k - c) + 1 * c)%nat at 1 by lia.
        rewrite Nat.div_add by lia. lia. }
      assert (Hmod : (k mod c = (k - c) mod c)%nat).
      { replace k with ((k - c) + 1 * c)%nat at 1 by lia.
        rewrite Nat.Div0.mod_add. reflexivity. }
      rewrite Hdiv in Hk. simpl in Hk. rewrite Hmod. apply IH. exact Hk.
Qed.

Lemma length_flat_map_rows {A B : Type} (g : A -> list B) (c : nat)
    (l : list A) :
  (forall r, length (g r) = c) -> length (flat_map g l) = (length l * c)%nat.
Proof.
  intros Hlen. induction l as [|r l IH]; simpl; [reflexivity|].
  rewrite length_app, Hlen, IH. reflexivity.
Qed.

(** ** binary64: the number of bits of a mantissa *)

Lemma digits2_pos_size (p : positive) : digits2_pos p = Pos.size p.
Proof. induction p as [p IH|p IH|]; simpl; [rewrite IH | rewrite IH |]; reflexivity. Qed.

Lemma Zdigits2_log2 (m : Z) : 0 < m -> Zdigits2 m = Z.log2 m + 1.
Proof.
  destruct m as [|p|p]; try lia. intros _. simpl. rewrite digits2_pos_size.
  destruct p as [p|p|]; simpl; try reflexivity; lia.
Qed.

Lemma Zdigits2_bounds (m : Z) :
  0 < m -> 1 <= Zdigits2 m /\ 2 ^ (Zdigits2 m - 1) <= m < 2 ^ Zdigits2 m.
Proof.
  intros Hm. rewrite Zdigits2_log2 by exact Hm.
  pose proof (Z.log2_nonneg m). pose proof (Z.log2_spec m Hm) as Hs.
  replace (Z.log2 m + 1 - 1) with (Z.log2 m) by lia.
  replace (Z.log2 m + 1) with (Z.succ (Z.log2 m)) by lia. lia.
Qed.

Lemma Zdigits2_unique (m k : Z) :
  2 ^ (k - 1) <= m < 2 ^ k -> 1 <= k -> Zdigits2 m = k.
Proof.
  intros Hm Hk.
  assert (0 < m) by (pose proof (Z.pow_pos_nonneg 2 (k - 1)); lia).
  rewrite Zdigits2_log2 by assumption.
  rewrite (Z.log2_unique m (k - 1)); [lia | lia |].
  replace (Z.succ (k - 1)) with k by lia. exact Hm.
Qed.

Lemma Zdigits2_le (m k : Z) : 0 <= m < 2 ^ k -> 0 <= k -> Zdigits2 m <= k.
Proof.
  intros [H0 Hm] Hk. destruct (Z.eq_dec m 0) as [->|Hne]; [simpl; lia|].
  rewrite Zdigits2_log2 by lia.
  assert (Z.log2 m < k) by (apply Z.log2_lt_pow2; lia). lia.
Qed.

Lemma Zdigits2_nonneg (m : Z) : 0 <= Zdigits2 m.
Proof. destruct m; simpl; lia. Qed.

(** ** binary64: shifting a mantissa to the right *)

Lemma shr_m_shr_1 (mrs : shr_record) :
  0 <= shr_m mrs -> shr_m (shr_1 mrs) = shr_m mrs / 2.
Proof.
  destruct mrs as [m r s]. simpl. intros Hm.
  destruct m as [|p|p]; [reflexivity | | lia].
  destruct p as [p|p|]; simpl.
  - rewrite Pos2Z.inj_xI. apply (Z.div_unique _ _ _ 1); lia.
  - rewrite Pos2Z.inj_xO. apply (Z.div_unique _ _ _ 0); lia.
  - reflexivity.
Qed.

Lemma shr_m_iter_pos (p : positive) (mrs : shr_record) :
  0 <= shr_m mrs ->
  shr_m (SpecFloat.iter_pos shr_1 p mrs) = shr_m mrs / 2 ^ Z.pos p.
Proof.
  revert mrs. induction p as [p IH|p IH|]; intros mrs Hm;
    try (assert (Hp : 0 < 2 ^ Z.pos p) by (apply Z.pow_pos_nonneg; lia)).
  - change (SpecFloat.iter_pos shr_1 p~1 mrs)
      with (SpecFloat.iter_pos shr_1 p (SpecFloat.iter_pos shr_1 p (shr_1 mrs))).
    assert (H1 : 0 <= shr_m (shr_1 mrs)).
    { rewrite shr_m_shr_1 by exact Hm. apply Z.div_pos; lia. }
    assert (H2 : 0 <= shr_m (SpecFloat.iter_pos shr_1 p (shr_1 mrs))).
    { rewrite IH by exact H1. apply Z.div_pos; [lia | apply Z.pow_pos_nonneg; lia]. }
    rewrite IH by exact H2. rewrite IH by exact H1.
    rewrite shr_m_shr_1 by exact Hm.
    rewrite !Z.div_div by lia.
    f_equal. replace (Z.pos p~1) with (1 + Z.pos p + Z.pos p) by lia.
    rewrite !Z.pow_add_r by lia. lia.
  - change (SpecFloat.iter_pos shr_1 p~0 mrs)
      with (SpecFloat.iter_pos shr_1 p (SpecFloat.iter_pos shr_1 p mrs)).
    assert (H2 : 0 <= shr_m (SpecFloat.iter_pos shr_1 p mrs)).
    { rewrite IH by exact Hm. apply Z.div_pos; [lia | apply Z.pow_pos_nonneg; lia]. }
    rewrite IH by exact H2. rewrite IH by exact Hm.
    rewrite Z.div_div by lia.
    f_equal. replace (Z.pos p~0) with (Z.pos p + Z.pos p) by lia.
    rewrite Z.pow_add_r by lia. reflexivity.
  - change (SpecFloat.iter_pos shr_1 1 mrs) with (shr_1 mrs).
    rewrite shr_m_shr_1 by exact Hm. reflexivity.
Qed.

Lemma shr_spec (mrs : shr_record) (e n : Z) :
  0 <= shr_m mrs ->
  shr_m (fst (shr mrs e n)) = shr_m mrs / 2 ^ Z.max n 0 /\
  snd (shr mrs e n) = e + Z.max n 0.
Proof.
  intros Hm. destruct n as [|p|p]; simpl.
  - rewrite Z.div_1_r. lia.
  - rewrite shr_m_iter_pos by exact Hm. split; reflexivity.
  - rewrite Z.div_1_r. lia.
Qed.

Lemma shr_m_record_of_loc (m : Z) (l : location) :
  shr_m (shr_record_of_loc m l) = m.
Proof. destruct l as [|[]]; reflexivity. Qed.

Lemma round_nearest_even_bounds (m : Z) (l : location) :
  m <= round_nearest_even m l <= m + 1.
Proof.
  destruct l as [|[]]; simpl; try lia. destruct (Z.even m); lia.
Qed.

(** The mantissa and the exponent after [shr_fexp]. *)
Lemma shr_fexp_spec (m e : Z) (l : location) :
  0 <= m ->
  let k := Z.max (fexp prec emax (Zdigits2 m + e) - e) 0 in
  shr_m (fst (shr_fexp prec emax m e l)) = m / 2 ^ k /\
  snd (shr_fexp prec emax m e l) = e + k.
Proof.
  intros Hm k. unfold shr_fexp.
  pose proof (shr_spec (shr_record_of_loc m l) e
                (fexp prec emax (Zdigits2 m + e) - e)) as H.
  rewrite shr_m_record_of_loc in H. apply H. exact Hm.
Qed.

(** Rounding a mantissa whose value [m * 2^e] is below [2^1001] gives a
    number, not an infinity. *)
Lemma binary_round_aux_finite (s : bool) (m e : Z) (l : location) :
  0 <= m < 2 ^ (1001 - e) -> e <= 0 ->
  finite_or_zero (binary_round_aux prec emax s m e l).
Proof.
  intros [Hm0 Hm] He. unfold binary_round_aux.
  pose proof (shr_fexp_spec m e l Hm0) as H1. cbv zeta in H1.
  destruct (shr_fexp prec emax m e l) as [mrs1 e1]. simpl fst in H1. simpl snd in H1.
  destruct H1 as [Hm1 He1].
  set (m1' := round_nearest_even (shr_m mrs1) (loc_of_shr_record mrs1)).
  pose proof (round_nearest_even_bounds (shr_m mrs1) (loc_of_shr_record mrs1)) as Hr.
  fold m1' in Hr.
  set (k1 := Z.max (fexp prec emax (Zdigits2 m + e) - e) 0) in *.
  assert (Hk1 : 0 <= k1) by (unfold k1; lia).
  assert (Hdm : Zdigits2 m <= 1001 - e) by (apply Zdigits2_le; lia).
  assert (He1b : e1 <= 948).
  { rewrite He1. unfold k1, fexp, emin, prec, emax. lia. }
  assert (H2k : 0 < 2 ^ k1) by (apply Z.pow_pos_nonneg; lia).
  assert (Hm1nn : 0 <= shr_m mrs1).
  { rewrite Hm1. apply Z.div_pos; lia. }
  assert (Hm1lt : shr_m mrs1 < 2 ^ (1001 - e1)).
  { rewrite Hm1. apply Z.div_lt_upper_bound; [exact H2k|].
    rewrite <- Z.pow_add_r by lia.
    replace (k1 + (1001 - e1)) with (1001 - e) by lia. exact Hm. }
  assert (Hm1' : 0 <= m1' < 2 ^ (1002 - e1)).
  { split; [lia|].
    replace (1002 - e1) with (1 + (1001 - e1)) by lia.
    rewrite Z.pow_add_r by lia. lia. }
  pose proof (shr_fexp_spec m1' e1 loc_Exact (proj1 Hm1')) as H2. cbv zeta in H2.
  destruct (shr_fexp prec emax m1' e1 loc_Exact) as [mrs2 e2].
  simpl fst in H2. simpl snd in H2. destruct H2 as [Hm2 He2].
  assert (Hdm1 : Zdigits2 m1' <= 1002 - e1) by (apply Zdigits2_le; lia).
  assert (He2b : e2 <= 971).
  { rewrite He2. unfold fexp, emin, prec, emax. lia. }
  assert (Hm2nn : 0 <= shr_m mrs2).
  { rewrite Hm2. apply Z.div_pos; [lia | apply Z.pow_pos_nonneg; lia]. }
  destruct (shr_m mrs2) as [|p|p]; [exact I | | lia].
  unfold emax, prec. destruct (Z.leb_spec e2 (1024 - 53)); [exact I | lia].
Qed.

(** ** binary64: the quotient of two ints *)

Lemma new_location_exact (n k : Z) :
  new_location n k = loc_Exact <-> k = 0.
Proof.
  unfold new_location, new_location_even, new_location_odd.
  destruct (Z.even n); destruct (Z.eqb_spec k 0) as [->|Hk];
    split; intros H; try reflexivity; try discriminate; try lia.
Qed.

(** The mantissa, the exponent and the position of the remainder that
    [SFdiv] hands to the rounding, for two positive ints. *)
Lemma SFdiv_core_binary_ints (ma mb : Z) :
  0 < ma -> 0 < mb ->
  let e := Z.min (fexp prec emax (Zdigits2 ma - Zdigits2 mb)) 0 in
  SFdiv_core_binary prec emax ma 0 mb 0
  = ((ma * 2 ^ (- e)) / mb, e, new_location mb ((ma * 2 ^ (- e)) mod mb)).
Proof.
  intros Ha Hb e. unfold SFdiv_core_binary.
  rewrite !Z.add_0_r. replace (0 - 0) with 0 by lia. fold e.
  assert (He : e <= 0) by (unfold e; lia).
  set (m' := match 0 - e with
             | Z0 => ma
             | Z.pos _ => Z.shiftl ma (0 - e)
             | Z.neg _ => 0
             end).
  assert (Hm' : m' = ma * 2 ^ (- e)).
  { unfold m'. replace (0 - e) with (- e) by lia.
    destruct (- e) as [|p|p] eqn:E; [simpl; lia | | lia].
    rewrite Z.shiftl_mul_pow2 by lia. reflexivity. }
  rewrite Hm'. unfold Z.div, Z.modulo.
  destruct (Z.div_eucl (ma * 2 ^ (- e)) mb) as [q r]. reflexivity.
Qed.

Lemma SFdiv_ints (sa sb : bool) (pa pb : positive) :
  let e := Z.min (fexp prec emax (Zdigits2 (Z.pos pa) - Zdigits2 (Z.pos pb))) 0 in
  SFdiv prec emax (S754_finite sa pa 0) (S754_finite sb pb 0)
  = binary_round_aux prec emax (xorb sa sb)
      ((Z.pos pa * 2 ^ (- e)) / Z.pos pb) e
      (new_location (Z.pos pb) ((Z.pos pa * 2 ^ (- e)) mod Z.pos pb)).
Proof.
  intros e. unfold SFdiv.
  rewrite (SFdiv_core_binary_ints (Z.pos pa) (Z.pos pb)) by lia.
  reflexivity.
Qed.

(** Far inside the range of binary64 the quotient of two ints is a
    number. *)
Lemma SFdiv_ints_finite (a b : Z) :
  b <> 0 -> Z.abs a < 2 ^ 1000 * Z.abs b ->
  finite_or_zero (SFdiv prec emax (Z2SF a) (Z2SF b)).
Proof.
  intros Hb Hab.
  assert (Hpos : forall sa sb pa pb,
            Z.pos pa < 2 ^ 1000 * Z.pos pb ->
            finite_or_zero
              (SFdiv prec emax (S754_finite sa pa 0) (S754_finite sb pb 0))).
  { intros sa sb pa pb Hlt. rewrite SFdiv_ints.
    set (e := Z.min _ 0). assert (He : e <= 0) by (unfold e; lia).
    assert (H2e : 0 < 2 ^ (- e)) by (apply Z.pow_pos_nonneg; lia).
    apply binary_round_aux_finite; [|exact He]. split.
    - apply Z.div_pos; lia.
    - apply Z.div_lt_upper_bound; [lia|].
      replace (1001 - e) with (1 + 1000 + - e) by lia.
      rewrite !Z.pow_add_r by lia.
      assert (0 < 2 ^ 1000) by (apply Z.pow_pos_nonneg; lia).
      nia. }
  destruct b as [|pb|pb]; [congruence | |];
    destruct a as [|pa|pa]; unfold Z2SF; try exact I; apply Hpos; lia.
Qed.

Lemma py_truediv_ints_finite (a b : Z) :
  b <> 0 -> Z.abs a < 2 ^ 1000 * Z.abs b ->
  exists f, py_truediv (PyInt a) (PyInt b) = Ok (PyFloat f).
Proof.
  intros Hb Hab. unfold py_truediv.
  destruct (Z.eqb_spec b 0) as [?|_]; [congruence|].
  pose proof (SFdiv_ints_finite a b Hb Hab) as Hf.
  destruct (SFdiv prec emax (Z2SF a) (Z2SF b)) as [s|s| |s m e];
    simpl in Hf; try contradiction; eauto.
Qed.

(** ** binary64: the ceiling of the quotient of two ints below 2^53 *)

Lemma loc_of_shr_record_of_loc (m : Z) (l : location) :
  loc_of_shr_record (shr_record_of_loc m l) = l.
Proof. destruct l as [|[]]; reflexivity. Qed.

(** A mantissa of 53 bits, or [2^53], is kept by the last shift of the
    rounding up to a factor 2. *)
Lemma shr_fexp_normal (m e : Z) :
  2 ^ 52 <= m <= 2 ^ 53 -> -1074 <= e ->
  exists k, 0 <= k <= 1 /\
    snd (shr_fexp prec emax m e loc_Exact) = e + k /\
    shr_m (fst (shr_fexp prec emax m e loc_Exact)) * 2 ^ k = m /\
    2 ^ 52 <= shr_m (fst (shr_fexp prec emax m e loc_Exact)).
Proof.
  intros Hm He.
  assert (H0 : 0 <= m) by lia.
  pose proof (shr_fexp_spec m e loc_Exact H0) as [Hs He2]. cbv zeta in Hs, He2.
  destruct (Z.eq_dec m (2 ^ 53)) as [->|Hne].
  - exists 1. rewrite Hs, He2.
    rewrite (Zdigits2_unique (2 ^ 53) 54) by lia.
    replace (Z.max (fexp prec emax (54 + e) - e) 0) with 1
      by (unfold fexp, emin, prec, emax; lia).
    repeat split; try lia; reflexivity.
  - exists 0. rewrite Hs, He2.
    rewrite (Zdigits2_unique m 53) by lia.
    replace (Z.max (fexp prec emax (53 + e) - e) 0) with 0
      by (unfold fexp, emin, prec, emax; lia).
    rewrite Z.pow_0_r, Z.div_1_r. lia.
Qed.

(** The end of the rounding, from a rounded mantissa [m] of 53 bits (or
    [2^53]) at exponent [e]: a float whose value is [m * 2^e]. *)
Lemma binary_round_end (m e : Z) :
  2 ^ 52 <= m <= 2 ^ 53 -> -1074 <= e <= 970 ->
  exists p k, 0 <= k <= 1 /\ Z.pos p * 2 ^ k = m /\
    (let '(mrs, e') := shr_fexp prec emax m e loc_Exact in
     match shr_m mrs with
     | Z0 => S754_zero false
     | Z.pos p => if e' <=? emax - prec then S754_finite false p e'
                  else S754_infinity false
     | Z.neg _ => S754_nan
     end) = S754_finite false p (e + k).
Proof.
  intros Hm He.
  destruct (shr_fexp_normal m e Hm (proj1 He)) as (k & Hk & He' & Hmk & Hlow).
  destruct (shr_fexp prec emax m e loc_Exact) as [mrs e']. simpl in *.
  destruct (shr_m mrs) as [|p|p]; try lia.
  exists p, k. split; [exact Hk|]. split; [exact Hmk|].
  subst e'. unfold emax, prec.
  destruct (Z.leb_spec (e + k) (1024 - 53)); [reflexivity | lia].
Qed.

(** Rounding a quotient of 53 bits: the mantissa stays or goes up by one,
    and stays when the division is exact. *)
Lemma binary_round_aux_53 (q e : Z) (l : location) :
  2 ^ 52 <= q < 2 ^ 53 -> -1074 <= e <= 970 ->
  exists p k m, 0 <= k <= 1 /\ Z.pos p * 2 ^ k = m /\
    binary_round_aux prec emax false q e l = S754_finite false p (e + k) /\
    q <= m <= q + 1 /\ (l = loc_Exact -> m = q).
Proof.
  intros Hq He. unfold binary_round_aux, shr_fexp at 1.
  rewrite (Zdigits2_unique q 53) by lia.
  replace (fexp prec emax (53 + e) - e) with 0
    by (unfold fexp, emin, prec, emax; lia).
  unfold shr at 1. rewrite shr_m_record_of_loc, loc_of_shr_record_of_loc.
  pose proof (round_nearest_even_bounds q l) as Hr.
  destruct (binary_round_end (round_nearest_even q l) e) as (p & k & Hk & Hp & ->);
    [lia | exact He |].
  exists p, k, (round_nearest_even q l).
  repeat split; try assumption; try lia.
  intros ->. reflexivity.
Qed.

(** Rounding a quotient of 54 bits: the last bit is dropped, and the
    mantissa stays or goes up by one; it stays when the quotient is even
    and the division exact, and goes up when the quotient is odd and the
    division is not exact. *)
Lemma binary_round_aux_54 (q e : Z) (l : location) :
  2 ^ 53 <= q < 2 ^ 54 -> -1075 <= e <= 969 ->
  exists p k m, 0 <= k <= 1 /\ Z.pos p * 2 ^ k = m /\
    binary_round_aux prec emax false q e l
    = S754_finite false p (e + 1 + k) /\
    q / 2 <= m <= q / 2 + 1 /\
    (Z.even q = true -> l = loc_Exact -> m = q / 2) /\
    (Z.even q = false -> l <> loc_Exact -> m = q / 2 + 1).
Proof.
  intros Hq He. unfold binary_round_aux, shr_fexp at 1.
  rewrite (Zdigits2_unique q 54) by lia.
  replace (fexp prec emax (54 + e) - e) with 1
    by (unfold fexp, emin, prec, emax; lia).
  unfold shr at 1.
  change (SpecFloat.iter_pos shr_1 1 (shr_record_of_loc q l))
    with (shr_1 (shr_record_of_loc q l)).
  set (mrs := shr_1 (shr_record_of_loc q l)).
  assert (Hm : shr_m mrs = q / 2).
  { unfold mrs. rewrite shr_m_shr_1; rewrite shr_m_record_of_loc; lia. }
  set (m := round_nearest_even (shr_m mrs) (loc_of_shr_record mrs)).
  pose proof (round_nearest_even_bounds (shr_m mrs) (loc_of_shr_record mrs))
    as Hr. fold m in Hr. rewrite Hm in Hr.
  assert (Hq2 : 2 ^ 52 <= q / 2 < 2 ^ 53).
  { split; [apply Z.div_le_lower_bound; lia
           | apply Z.div_lt_upper_bound; lia]. }
  destruct (binary_round_end m (e + 1)) as (p & k & Hk & Hp & ->); [lia | lia |].
  exists p, k, m. repeat split; try assumption; try lia.
  - intros Heven ->. unfold m. rewrite Hm. unfold mrs.
    destruct q as [|[q'|q'|]|]; try discriminate; try lia. reflexivity.
  - intros Hodd Hl. unfold m. rewrite Hm. unfold mrs.
    destruct q as [|[q'|q'|]|]; try discriminate; try lia.
    destruct l as [|[]]; try congruence; reflexivity.
Qed.

Lemma ceil_div_bounds (n c : Z) :
  0 < c -> c * ((n + c - 1) / c - 1) < n <= c * ((n + c - 1) / c).
Proof.
  intros Hc.
  pose proof (Z.div_mod (n + c - 1) c ltac:(lia)) as H1.
  pose proof (Z.mod_pos_bound (n + c - 1) c ltac:(lia)) as H2.
  lia.
Qed.

(** [math.ceil] of a positive float [p * 2^(e+k)] that lies in
    [(c - 1, c]]. *)
Lemma math_ceil_between (p : positive) (e k m t c : Z) :
  0 <= k <= 1 -> Z.pos p * 2 ^ k = m -> e <= 0 -> t = 2 ^ (- e) ->
  (c - 1) * t < m <= c * t ->
  math_ceil (PyFloat (S754_finite false p (e + k))) = Ok c.
Proof.
  intros Hk Hp He Ht Hm. unfold math_ceil.
  assert (Ht0 : 0 < t) by (subst t; apply Z.pow_pos_nonneg; lia).
  destruct (Z.leb_spec 0 (e + k)) as [H0|H0].
  - f_equal.
    assert (H2k : 2 ^ k = 2 ^ (e + k) * t).
    { subst t. rewrite <- Z.pow_add_r by lia. f_equal. lia. }
    set (v := Z.pos p * 2 ^ (e + k)).
    assert (Hv : m = v * t) by (unfold v; rewrite <- Hp, H2k; lia).
    rewrite Hv in Hm. nia.
  - f_equal.
    assert (Ht' : t = 2 ^ k * 2 ^ (- (e + k))).
    { subst t. rewrite <- Z.pow_add_r by lia. f_equal. lia. }
    set (t' := 2 ^ (- (e + k))) in *.
    assert (Ht'0 : 0 < t') by (apply Z.pow_pos_nonneg; lia).
    assert (H2k : 0 < 2 ^ k) by (apply Z.pow_pos_nonneg; lia).
    assert (Hb : (c - 1) * t' < Z.pos p <= c * t').
    { subst m. rewrite Ht' in Hm. nia. }
    change (Z.neg p) with (- Z.pos p).
    assert (Hd : - Z.pos p / t' = - c).
    { symmetry. apply (Z.div_unique_pos _ _ _ (c * t' - Z.pos p)); lia. }
    lia.
Qed.

(** The quotient [q] and the remainder [r] of [N * t] by [C], against
    the ceiling [Q0] of [N / C], when [t] exceeds [C]. *)
Lemma quotient_53 (N C t q r Q0 : Z) :
  0 < C -> C < t -> N * t = C * q + r -> 0 <= r < C ->
  C * (Q0 - 1) < N <= C * Q0 ->
  (Q0 - 1) * t < q /\ q <= Q0 * t /\ (q = Q0 * t -> r = 0).
Proof.
  intros HC Ht Hdm Hr [Hlo Hhi].
  assert (H1 : C * ((Q0 - 1) * t) + t <= N * t) by nia.
  assert (H2 : N * t <= C * (Q0 * t)) by nia.
  split; [|split].
  - apply (Z.mul_lt_mono_pos_l C); [lia|]. lia.
  - apply (Z.mul_le_mono_pos_l _ _ C); [lia|]. lia.
  - intros ->. lia.
Qed.

Lemma quotient_54 (N C t q r Q0 : Z) :
  0 < C -> 0 < t -> N * (2 * t) = C * q + r -> 0 <= r < C ->
  C * (Q0 - 1) < N <= C * Q0 -> 0 < N < q ->
  q <= 2 * (Q0 * t) /\
  (q = 2 * (Q0 * t) -> r = 0) /\
  (q <= 2 * ((Q0 - 1) * t) + 1 -> q = 2 * ((Q0 - 1) * t) + 1 /\ r <> 0).
Proof.
  intros HC Ht Hdm Hr [Hlo Hhi] [HN HNq].
  assert (H2 : N * (2 * t) <= C * (2 * (Q0 * t))) by nia.
  assert (H2t : C < 2 * t).
  { assert (C * N < C * q) by (apply Z.mul_lt_mono_pos_l; lia).
    apply (Z.mul_lt_mono_pos_l N); [lia|]. lia. }
  assert (H1 : C * (2 * ((Q0 - 1) * t)) + 2 * t <= N * (2 * t)) by nia.
  split; [|split].
  - apply (Z.mul_le_mono_pos_l _ _ C); [lia|]. lia.
  - intros ->. lia.
  - intros Hq.
    assert (2 * ((Q0 - 1) * t) < q).
    { apply (Z.mul_lt_mono_pos_l C); [lia|]. lia. }
    assert (Hq' : q = 2 * ((Q0 - 1) * t) + 1) by lia.
    split; [exact Hq'|]. subst q. lia.
Qed.

(** [math.ceil(n / c)] for two positive ints below [2^53] is the ceiling
    of the quotient: the rounding of the division does not reach the next
    integer from below, nor leave the last one. *)
Lemma math_ceil_truediv (n c : Z) :
  0 < n < 2 ^ 53 -> 0 < c < 2 ^ 53 ->
  (q <- py_truediv (PyInt n) (PyInt c) ;; math_ceil q)
  = Ok ((n + c - 1) / c).
Proof.
  intros Hn Hc. unfold py_truediv.
  destruct (Z.eqb_spec c 0) as [?|_]; [lia|].
  destruct n as [|pn|pn]; try lia. destruct c as [|pc|pc]; try lia.
  unfold Z2SF. rewrite SFdiv_ints. simpl xorb.
  set (N := Z.pos pn) in *. set (C := Z.pos pc) in *.
  destruct (Zdigits2_bounds N) as (Hd1 & HN1 & HN2); [lia|].
  destruct (Zdigits2_bounds C) as (Hd2 & HC1 & HC2); [lia|].
  assert (Hd1' : Zdigits2 N <= 53) by (apply Zdigits2_le; lia).
  assert (Hd2' : Zdigits2 C <= 53) by (apply Zdigits2_le; lia).
  set (d1 := Zdigits2 N) in *. set (d2 := Zdigits2 C) in *.
  replace (Z.min (fexp prec emax (d1 - d2)) 0) with (d1 - d2 - 53)
    by (unfold fexp, emin, prec, emax; lia).
  set (e := d1 - d2 - 53).
  assert (He : -105 <= e <= -1) by (unfold e; lia).
  set (s := - e). assert (Hs : 1 <= s) by (unfold s; lia).
  pose proof (ceil_div_bounds N C ltac:(lia)) as Hceil.
  set (Q0 := (N + C - 1) / C) in *.
  set (t := 2 ^ (s - 1)).
  assert (Ht : 0 < t) by (apply Z.pow_pos_nonneg; lia).
  assert (H2s : 2 ^ s = 2 * t).
  { unfold t. replace s with (1 + (s - 1)) at 1 by lia.
    rewrite Z.pow_add_r by lia. reflexivity. }
  assert (Hlo : 2 ^ 52 * C < N * 2 ^ s).
  { apply Z.lt_le_trans with (2 ^ 52 * 2 ^ d2).
    - apply Z.mul_lt_mono_pos_l; lia.
    - replace (2 ^ 52 * 2 ^ d2) with (2 ^ (d1 - 1) * 2 ^ s).
      + apply Z.mul_le_mono_nonneg_r; lia.
      + rewrite <- !Z.pow_add_r by lia. f_equal. unfold s, e. lia. }
  assert (Hhi : N * 2 ^ s < C * 2 ^ 54).
  { apply Z.lt_le_trans with (2 ^ d1 * 2 ^ s).
    - apply Z.mul_lt_mono_pos_r; lia.
    - replace (2 ^ d1 * 2 ^ s) with (2 ^ (d2 - 1) * 2 ^ 54).
      + apply Z.mul_le_mono_nonneg_r; lia.
      + rewrite <- !Z.pow_add_r by lia. f_equal. unfold s, e. lia. }
  assert (HCs : C < 2 ^ s).
  { apply Z.lt_le_trans with (2 ^ d2); [lia|].
    apply Z.pow_le_mono_r; unfold s, e; lia. }
  pose proof (Z.div_mod (N * 2 ^ s) C ltac:(lia)) as Hdm.
  pose proof (Z.mod_pos_bound (N * 2 ^ s) C ltac:(lia)) as Hr.
  assert (Hq : 2 ^ 52 <= N * 2 ^ s / C < 2 ^ 54).
  { split.
    - apply Z.div_le_lower_bound; lia.
    - apply Z.div_lt_upper_bound; lia. }
  set (q := N * 2 ^ s / C) in *. set (r := (N * 2 ^ s) mod C) in *.
  pose proof (new_location_exact C r) as Hloc.
  assert (Heqt : t = 2 ^ (- (e + 1))) by (unfold t; f_equal; unfold s; lia).
  clearbody q r t Q0 d1 d2. clear HN1 HN2 HC1 HC2 Hd1 Hd2 Hd1' Hd2'.
  destruct (Z.lt_ge_cases q (2 ^ 53)) as [Hq53|Hq54].
  - (* 53 bits *)
    destruct (binary_round_aux_53 q e (new_location C r))
      as (p & k & m & Hk & Hp & -> & Hm & Hex); [lia | lia |].
    simpl bind.
    apply (math_ceil_between p e k m (2 ^ s) Q0);
      [exact Hk | exact Hp | lia | reflexivity |].
    destruct (quotient_53 N C (2 ^ s) q r Q0) as (H1 & H2 & H3);
      [lia | exact HCs | lia | exact Hr | exact Hceil |].
    split; [lia|].
    destruct (Z.eq_dec q (Q0 * 2 ^ s)) as [Heq|Hne]; [|lia].
    rewrite Hex by (apply Hloc, H3, Heq). lia.
  - (* 54 bits *)
    destruct (binary_round_aux_54 q e (new_location C r))
      as (p & k & m & Hk & Hp & -> & Hm & Hev & Hodd); [lia | lia |].
    simpl bind.
    pose proof (Z.div_mod q 2 ltac:(lia)) as Hq2.
    pose proof (Z.mod_pos_bound q 2 ltac:(lia)) as Hq2r.
    apply (math_ceil_between p (e + 1) k m t Q0);
      [exact Hk | exact Hp | lia | exact Heqt |].
    rewrite H2s in Hdm.
    destruct (quotient_54 N C t q r Q0) as (H1 & H2 & H3);
      [lia | exact Ht | lia | exact Hr | exact Hceil | lia |].
    split.
    + destruct (Z.lt_ge_cases ((Q0 - 1) * t) (q / 2)) as [?|Hsmall]; [lia|].
      destruct H3 as [Hqodd Hrpos]; [lia|].
      rewrite Hodd; [lia | | rewrite Hloc; exact Hrpos].
      rewrite Hqodd, Z.even_add, Z.even_mul. reflexivity.
    + destruct (Z.eq_dec (q / 2) (Q0 * t)) as [Heq|Hne]; [|lia].
      assert (Hq' : q = 2 * (Q0 * t)) by lia.
      rewrite Hev; [lia | | apply Hloc, H2, Hq'].
      rewrite Hq', Z.even_mul. reflexivity.
Qed.

(** ** The int branch *)

Lemma grid_layout_nonempty (img_objects : list image) (n s rows : Z) :
  img_objects <> [] ->
  (if n =? 0 then Ok 1
   else q <- py_truediv (PyInt (py_len img_objects)) (PyInt n) ;;
        math_ceil q) = Ok rows ->
  let cols := if n =? 0 then py_len img_objects else n in
  let cw := cell_width img_objects in
  let ch := cell_height img_objects in
  grid_layout img_objects n s =
    Ok (grid_cells rows cols cw ch s,
        cols * cw + (cols - 1) * s + 2 * s,
        rows * ch + (rows - 1) * s + 2 * s).
Proof.
  intros Hne Hrows. unfold grid_layout. rewrite Hrows. unfold py_floordiv.
  assert (Hlen : py_len (map size img_objects) = py_len img_objects).
  { unfold py_len. rewrite length_map. reflexivity. }
  rewrite Hlen.
  destruct (Z.eqb_spec (py_len img_objects) 0) as [H0|H0].
  { destruct img_objects; [congruence | unfold py_len in H0; simpl in H0; lia]. }
  reflexivity.
Qed.

Lemma py_len_pos {A : Type} (l : list A) : l <> [] -> 0 < py_len l.
Proof. destruct l; [congruence | unfold py_len; simpl; lia]. Qed.

Lemma grid_cells_length (rows cols cw ch s : Z) :
  length (grid_cells rows cols cw ch s)
  = (Z.to_nat rows * Z.to_nat cols)%nat.
Proof.
  unfold grid_cells.
  rewrite (length_flat_map_rows _ (Z.to_nat cols)).
  - rewrite py_range_length. f_equal. lia.
  - intros r. rewrite length_map, py_range_length. lia.
Qed.

Lemma grid_cells_lookup (rows cols cw ch s i : Z) :
  0 < cols -> 0 <= i < rows * cols ->
  grid_cells rows cols cw ch s !! Z.to_nat i
  = Some {| x := s + (i mod cols) * (cw + s); y := s + (i / cols) * (ch + s) |}.
Proof.
  intros Hc Hi. unfold grid_cells.
  assert (Hq : 0 <= i / cols < rows).
  { split; [apply Z.div_pos; lia | apply Z.div_lt_upper_bound; lia]. }
  pose proof (Z.mod_pos_bound i cols Hc) as Hr.
  assert (Hdiv : (Z.to_nat i / Z.to_nat cols)%nat = Z.to_nat (i / cols)).
  { rewrite Z2Nat.inj_div by lia. reflexivity. }
  assert (Hmod : (Z.to_nat i mod Z.to_nat cols)%nat = Z.to_nat (i mod cols)).
  { rewrite Z2Nat.inj_mod by lia. reflexivity. }
  rewrite (lookup_flat_map_rows _ (Z.to_nat cols) _ _ (i / cols)).
  - rewrite Hmod, list_lookup_fmap, py_range_lookup by lia.
    simpl. rewrite Z2Nat.id by lia. reflexivity.
  - intros r. rewrite length_map, py_range_length. lia.
  - lia.
  - rewrite Hdiv, py_range_lookup by lia. rewrite Z2Nat.id by lia.
    reflexivity.
Qed.

(** C1. Grid mode: for a non-empty list of N images and C > 0 columns, N
    and C below 2^53 (so that the float quotient N / C keeps its ceiling),
    with any spacing S, in particular S >= 0, the calculator returns
    normally, leaves the images as they are, and: the canvas is
    (C*cellWidth + (C-1)*S + 2*S, rows*cellHeight + (rows-1)*S + 2*S) where
    cellWidth and cellHeight are the floor averages of the widths and heights
    and rows = ceil(N/C), that is the least integer with N <= C*rows; and
    entry i of the layout, for every image index i < N, is
    x = S + (i mod C)*(cellWidth+S), y = S + (i div C)*(cellHeight+S). *)
Theorem grid_positions_and_canvas (img_objects : list image) (C S : Z) :
  img_objects <> [] -> py_len img_objects < 2 ^ 53 -> 0 < C < 2 ^ 53 ->
  let N := py_len img_objects in
  let cellWidth := py_sum (map fst (map size img_objects)) / N in
  let cellHeight := py_sum (map snd (map size img_objects)) / N in
  let rows := (N + C - 1) / C in
  C * (rows - 1) < N <= C * rows /\
  exists layout,
    calculate_layout (RInt C) img_objects S
    = (Ok (layout,
           C * cellWidth + (C - 1) * S + 2 * S,
           rows * cellHeight + (rows - 1) * S + 2 * S),
       img_objects) /\
    forall i, 0 <= i < N ->
      py_getitem layout i
      = Ok {| x := S + (i mod C) * (cellWidth + S);
              y := S + (i / C) * (cellHeight + S) |}.
Proof.
  intros Hne HN HC N cellWidth cellHeight rows.
  pose proof (ceil_div_bounds N C ltac:(lia)) as Hb. fold rows in Hb.
  pose proof (py_len_pos img_objects Hne) as HN0. fold N in HN0.
  split; [exact Hb|].
  eexists. split.
  - simpl. rewrite (grid_layout_nonempty img_objects C S rows Hne).
    + destruct (Z.eqb_spec C 0) as [?|_]; [lia|]. reflexivity.
    + destruct (Z.eqb_spec C 0) as [?|_]; [lia|].
      apply math_ceil_truediv; fold N; lia.
  - intros i Hi. apply py_getitem_lookup; [lia|].
    apply grid_cells_lookup; [lia|]. fold N rows. lia.
Qed.

Lemma grid_positions_and_canvas_witness :
  exists layout,
    calculate_layout (RInt 2) square_and_oblong 10
    = (Ok (layout, 296, 296), square_and_oblong) /\
    py_getitem layout 2 = Ok {| x := 10; y := 153 |}.
Proof.
  destruct (grid_positions_and_canvas square_and_oblong 2 10)
    as (_ & layout & Hl & Hpos);
    [discriminate | reflexivity | split; reflexivity |].
  exists layout. split; [exact Hl|].
  apply (Hpos 2). vm_compute. split; [discriminate | reflexivity].
Defined.

(** ** The dict branch against the two passes of the specification *)

Lemma py_index_lookup `{EqDecision A} (l : list A) (k : nat) (a : A) :
  NoDup l -> l !! k = Some a -> py_index a l = Ok (Z.of_nat k).
Proof.
  intros Hnd. revert k. induction Hnd as [|y l Hy Hnd IH]; intros k Hk.
  - rewrite lookup_nil in Hk. discriminate.
  - destruct k as [|k]; simpl in *.
    + injection Hk as ->. destruct (decide (a = a)); [reflexivity | congruence].
    + destruct (decide (y = a)) as [->|Hne].
      { exfalso. apply Hy. eapply list_elem_of_lookup_2. exact Hk. }
      rewrite (IH k Hk). simpl. f_equal. lia.
Qed.

Lemma py_index_first `{EqDecision A} (l : list A) (a : A) (i : Z) :
  py_index a l = Ok i ->
  0 <= i < py_len l /\ l !! Z.to_nat i = Some a /\
  forall j, (j < Z.to_nat i)%nat -> l !! j <> Some a.
Proof.
  revert i. induction l as [|y l IH]; intros i Hi; simpl in Hi; [discriminate|].
  destruct (decide (y = a)) as [->|Hne].
  - injection Hi as <-. unfold py_len. simpl.
    split; [lia|]. split; [reflexivity|]. intros j Hj. lia.
  - destruct (py_index a l) as [i'|] eqn:Hi'; simpl in Hi; [|discriminate].
    injection Hi as <-. destruct (IH i' eq_refl) as (Hr & Hl & Hf).
    unfold py_len in *. simpl length.
    replace (Z.to_nat (1 + i')) with (S (Z.to_nat i')) by lia.
    split; [lia|]. split; [exact Hl|].
    intros [|j] Hj; simpl; [congruence|]. apply Hf. lia.
Qed.

Lemma py_index_elem `{EqDecision A} (l : list A) (a : A) :
  a ∈ l -> exists i, py_index a l = Ok i.
Proof.
  induction l as [|y l IH]; intros Hin.
  - inversion Hin.
  - simpl. destruct (decide (y = a)) as [->|Hne]; [eauto|].
    destruct IH as [i ->].
    { apply elem_of_cons in Hin as [->|Hin]; [congruence | exact Hin]. }
    simpl. eauto.
Qed.

Lemma map_result_Forall2 {A B : Type} (f : A -> result B) (xs : list A)
    (ys : list B) :
  Forall2 (fun a b => f a = Ok b) xs ys -> map_result f xs = Ok ys.
Proof.
  induction 1 as [|a b xs ys Hab _ IH]; simpl; [reflexivity|].
  rewrite Hab, IH. reflexivity.
Qed.

Lemma py_clamp_in {A : Type} (l : list A) (i : Z) :
  0 <= i <= py_len l -> py_clamp l i = Z.to_nat i.
Proof. intros H. unfold py_clamp. destruct (Z.ltb_spec i 0); lia. Qed.

(** *** One iteration of each loop on a config that lies in the grid *)

Lemma getslice_span {A : Type} (cw : list A) (col span : Z) :
  0 <= col -> 0 <= span -> col + span <= py_len cw ->
  py_getslice cw col (col + span)
  = take (Z.to_nat span) (drop (Z.to_nat col) cw).
Proof.
  intros Hc Hs Hl. unfold py_getslice.
  rewrite !py_clamp_in by lia. f_equal. lia.
Qed.

Lemma sizing_columns (cw : list num) (col span : Z) (sw : num) :
  0 <= col -> 0 <= span -> col + span <= py_len cw ->
  map_result (fun c => cur <- py_getitem cw c ;; Ok (py_max_num cur sw))
    (py_range col (col + span))
  = Ok (map (fun cur => py_max_num cur sw)
          (take (Z.to_nat span) (drop (Z.to_nat col) cw))).
Proof.
  intros Hc Hs Hl. unfold py_len in Hl. apply map_result_Forall2.
  apply Forall2_same_length_lookup_2.
  - rewrite py_range_length, length_map, length_take, length_drop. lia.
  - intros i c q Hi Hq.
    assert (Hlt : (i < Z.to_nat span)%nat).
    { apply lookup_lt_Some in Hi. rewrite py_range_length in Hi. lia. }
    rewrite py_range_lookup in Hi by lia. injection Hi as <-.
    rewrite list_lookup_fmap, lookup_take_lt, lookup_drop in Hq by exact Hlt.
    destruct (cw !! (Z.to_nat col + i)%nat) as [cur|] eqn:Hcur;
      simpl in Hq; [|discriminate].
    injection Hq as <-.
    rewrite (py_getitem_lookup cw _ cur); [reflexivity | lia |].
    replace (Z.to_nat (col + Z.of_nat i)) with (Z.to_nat col + i)%nat by lia.
    exact Hcur.
Qed.

Lemma setslice_widen (cw : list num) (col span : Z) (sw : num) :
  0 <= col -> 0 <= span -> col + span <= py_len cw ->
  py_setslice cw col (col + span)
    (map (fun cur => py_max_num cur sw)
       (take (Z.to_nat span) (drop (Z.to_nat col) cw)))
  = Spec.widen col span sw cw.
Proof.
  intros Hc Hs Hl. unfold py_setslice, Spec.widen.
  rewrite !py_clamp_in by lia. unfold py_len in Hl.
  replace (Nat.max (Z.to_nat col) (Z.to_nat (col + span)))
    with (Z.to_nat col + Z.to_nat span)%nat by lia.
  set (c := Z.to_nat col). set (s := Z.to_nat span).
  apply list_eq. intros i. rewrite list_lookup_imap.
  destruct (Nat.lt_ge_cases i c) as [Hi|Hi].
  - rewrite lookup_app_l by (rewrite length_take; lia).
    rewrite lookup_take_lt by exact Hi.
    destruct (Z.leb_spec col (Z.of_nat i)); [lia|].
    simpl. destruct (cw !! i); reflexivity.
  - rewrite lookup_app_r by (rewrite length_take; lia).
    rewrite length_take_le by lia.
    destruct (Nat.lt_ge_cases i (c + s)) as [Hj|Hj].
    + rewrite lookup_app_l
        by (rewrite length_map, length_take, length_drop; lia).
      rewrite list_lookup_fmap, lookup_take_lt, lookup_drop by lia.
      replace (c + (i - c))%nat with i by lia.
      destruct (Z.leb_spec col (Z.of_nat i)); [|lia].
      destruct (Z.ltb_spec (Z.of_nat i) (col + span)); [|lia].
      reflexivity.
    + rewrite lookup_app_r
        by (rewrite length_map, length_take, length_drop; lia).
      rewrite length_map, length_take, length_drop, lookup_drop.
      replace (c + s + (i - c - Nat.min s (length cw - c)))%nat with i by lia.
      destruct (Z.ltb_spec (Z.of_nat i) (col + span)); [lia|].
      rewrite andb_false_r. destruct (cw !! i); reflexivity.
Qed.

Lemma insert_raise_row (rh : list Z) (r cur h : Z) :
  0 <= r -> rh !! Z.to_nat r = Some cur ->
  <[Z.to_nat r := py_max cur h]> rh = Spec.raise_row r h rh.
Proof.
  intros Hr Hcur. unfold Spec.raise_row. apply list_eq. intros i.
  rewrite list_lookup_imap.
  destruct (decide (Z.to_nat r = i)) as [<-|Hne].
  - rewrite list_lookup_insert_eq by (eapply lookup_lt_Some; exact Hcur).
    rewrite Hcur. simpl. rewrite Z2Nat.id by lia.
    rewrite Z.eqb_refl. reflexivity.
  - rewrite list_lookup_insert_ne by exact Hne.
    destruct (Z.eqb_spec (Z.of_nat i) r); [lia|].
    destruct (rh !! i); reflexivity.
Qed.

Lemma raise_row_step (rh : list Z) (r h : Z) :
  0 <= r < py_len rh ->
  (cur <- py_getitem rh r ;; py_setitem rh r (py_max cur h))
  = Ok (Spec.raise_row r h rh).
Proof.
  intros Hr. destruct (py_getitem_nonneg rh r Hr) as (cur & Hcur & ->).
  simpl. rewrite py_setitem_nonneg by exact Hr.
  rewrite (insert_raise_row rh r cur h); [reflexivity | lia | exact Hcur].
Qed.

Lemma resize_positive (img : image) (n : Z * Z) :
  positive_size n -> resize img n = Ok (Resized img (fst n) (snd n)).
Proof.
  intros [Hw Hh]. unfold resize.
  destruct (decide (size img = n)); [reflexivity|].
  destruct (Z.ltb_spec (fst n) 1); [lia|].
  destruct (Z.ltb_spec (snd n) 1); [lia|]. reflexivity.
Qed.

Section one_config.
  Context (d : layout_dict) (configs : list config) (sp : Z).
  Context (cfg : config) (k : nat) (img : image).
  Context (cw : list num) (rh : list Z).
  Hypothesis Hdistinct : NoDup configs.
  Hypothesis Hcfg : configs !! k = Some cfg.
  Hypothesis Hgrid : in_grid d cfg.
  Hypothesis Hcw_len : length cw = Z.to_nat (columns d).
  Hypothesis Hrh_len : length rh = Z.to_nat (rows d).

Lemma in_grid_lengths : py_len cw = columns d /\ py_len rh = rows d.
Proof.
  destruct Hgrid as (Hrow & Hcol & Hspan & Hend). unfold py_len. lia.
Qed.

(** The first loop's body: it fails only where the scaled width does. *)
Lemma sizing_step_in_grid (imgs : list image) :
  imgs !! k = Some img ->
  sizing_step configs imgs sp cfg (cw, rh)
  = (scaled <- Spec.scaledWidth sp cfg (size img) ;;
     Ok (Spec.widen (col_of cfg) (span_of cfg) scaled cw,
         Spec.raise_row (row_of cfg) (snd (size img)) rh)).
Proof.
  intros Himg. destruct Hgrid as (Hrow & Hcol & Hspan & Hend).
  destruct in_grid_lengths as [Hcw Hrh].
  unfold sizing_step. rewrite (py_index_lookup configs k cfg) by assumption.
  simpl bind.
  rewrite (py_getitem_lookup imgs _ img);
    [| lia | rewrite Nat2Z.id; exact Himg].
  simpl bind. unfold Spec.scaledWidth.
  destruct (py_truediv _ _) as [scaled|e]; [|reflexivity]. simpl bind.
  rewrite sizing_columns by (unfold col_of; lia). simpl bind.
  rewrite setslice_widen by (unfold col_of; lia).
  simpl fst. simpl snd.
  pose proof (raise_row_step rh (row_of cfg) (snd (size img))) as Hraise.
  unfold bind in Hraise |- *.
  destruct (py_getitem rh (row_of cfg)) as [cur|e].
  - rewrite Hraise by (unfold row_of; lia). reflexivity.
  - discriminate Hraise. unfold row_of; lia.
Qed.

(** Lines 67 to 74 compute the new size of the specification. *)
Lemma rescaled_size_in_grid :
  rescaled_size cw sp cfg img = Spec.new_size sp cw cfg (size img).
Proof.
  destruct Hgrid as (Hrow & Hcol & Hspan & Hend).
  destruct in_grid_lengths as [Hcw Hrh].
  unfold rescaled_size, Spec.new_size, Spec.total.
  rewrite getslice_span by (unfold col_of; lia).
  destruct (py_sum_num _) as [s|e]; reflexivity.
Qed.

(** The second loop's body, when the new size is one that [resize]
    accepts. *)
Lemma rescale_step_in_grid (imgs : list image) (n : Z * Z) :
  imgs !! k = Some img ->
  Spec.new_size sp cw cfg (size img) = Ok n -> positive_size n ->
  rescale_step configs cw sp cfg rh imgs
  = (Ok (Spec.raise_row (row_of cfg) (snd n) rh),
     <[k := Resized img (fst n) (snd n)]> imgs).
Proof.
  intros Himg Hn Hpos. destruct Hgrid as (Hrow & Hcol & Hspan & Hend).
  destruct in_grid_lengths as [Hcw Hrh].
  assert (Hk : 0 <= Z.of_nat k < py_len imgs).
  { apply lookup_lt_Some in Himg. unfold py_len. lia. }
  unfold rescale_step. rewrite (py_index_lookup configs k cfg) by assumption.
  simpl bind.
  rewrite (py_getitem_lookup imgs _ img);
    [| lia | rewrite Nat2Z.id; exact Himg].
  simpl bind. rewrite rescaled_size_in_grid, Hn. simpl bind.
  rewrite (resize_positive img n Hpos). simpl bind.
  rewrite py_setitem_nonneg by exact Hk. simpl bind.
  rewrite Nat2Z.id.
  pose proof (raise_row_step rh (row_of cfg)) as Hraise.
  rewrite Hraise by (unfold row_of; lia). reflexivity.
Qed.
End one_config.

Lemma length_widen (c s : Z) (scaled : num) (cw : list num) :
  length (Spec.widen c s scaled cw) = length cw.
Proof. apply length_imap. Qed.

Lemma length_raise_row (r h : Z) (rh : list Z) :
  length (Spec.raise_row r h rh) = length rh.
Proof. apply length_imap. Qed.

Lemma drop_lookup_cons {A : Type} (l : list A) (k : nat) (a : A) (rest : list A) :
  drop k l = a :: rest -> l !! k = Some a /\ drop (S k) l = rest.
Proof.
  intros Hd.
  assert (Ha : l !! k = Some a).
  { rewrite <- (Nat.add_0_r k), <- lookup_drop, Hd. reflexivity. }
  split; [exact Ha|].
  rewrite (drop_S l a k Ha) in Hd. congruence.
Qed.

(** *** The two loops on a rule whose configs are distinct and in the grid *)

Section loops.
  Context (d : layout_dict) (sp : Z) (imgs : list image).
  Hypothesis Hdistinct : NoDup (images d).

(** The first loop over a run [todo] of configs starting at index [k],
    every one of them in the grid and with an image at its index: it ends
    as pass 1 of the specification does, with the same lists or the same
    exception. *)
Lemma sizing_loop (todo rest : list config) (k : nat) (cw : list num)
    (rh : list Z) :
  drop k (images d) = todo ++ rest ->
  Forall (in_grid d) todo ->
  (k + length todo <= length imgs)%nat ->
  length cw = Z.to_nat (columns d) -> length rh = Z.to_nat (rows d) ->
  for_each (sizing_step (images d) imgs sp) todo (cw, rh)
  = Spec.pass1 sp todo (map size (drop k imgs)) cw rh.
Proof.
  revert k cw rh.
  induction todo as [|cfg todo IH]; intros k cw rh Hd Hgrid Hlen Hcw Hrh.
  - destruct (map size (drop k imgs)); reflexivity.
  - simpl in Hd. apply drop_lookup_cons in Hd as [Hcfg Hd].
    apply Forall_cons in Hgrid as [Hin Hgrid]. simpl in Hlen.
    destruct (lookup_lt_is_Some_2 imgs k) as [img Himg]; [lia|].
    rewrite (drop_S imgs img k Himg). simpl.
    rewrite (sizing_step_in_grid d (images d) sp cfg k img cw rh)
      by assumption.
    destruct (Spec.scaledWidth sp cfg (size img)) as [scaled|e];
      [|reflexivity].
    simpl. apply IH; [exact Hd | exact Hgrid | lia | |].
    + rewrite length_widen. exact Hcw.
    + rewrite length_raise_row. exact Hrh.
Qed.

Hypothesis Hgrid : Forall (in_grid d) (images d).
Hypothesis Hlength : (length (images d) <= length imgs)%nat.

(** The second loop, when every new size is one that [resize] accepts. *)
Lemma rescaling_loop (cw : list num) (todo : list config) (k : nat)
    (rh : list Z) (cur : list image) (ns : list (Z * Z)) :
  drop k (images d) = todo -> drop k cur = drop k imgs ->
  length cw = Z.to_nat (columns d) -> length rh = Z.to_nat (rows d) ->
  Spec.new_sizes sp cw todo (map size (drop k imgs)) = Ok ns ->
  Forall positive_size ns ->
  rescale_loop (rescale_step (images d) cw sp) todo rh cur
  = (Ok (Spec.pass2 todo ns rh),
     take k cur ++ Spec.rescaled (drop k imgs) ns
     ++ drop (k + length todo) imgs).
Proof.
  revert k rh cur ns.
  induction todo as [|cfg todo IH]; intros k rh cur ns Hd Hcur Hcw Hrh Hns Hpos.
  - simpl. assert (ns = []) as ->.
    { simpl in Hns. destruct (map size (drop k imgs)); congruence. }
    unfold Spec.rescaled. rewrite zip_with_nil_r. simpl.
    rewrite Nat.add_0_r, <- Hcur, take_drop. reflexivity.
  - apply drop_lookup_cons in Hd as [Hcfg Hd].
    assert (Hin : in_grid d cfg).
    { eapply Forall_lookup_1; eassumption. }
    destruct (lookup_lt_is_Some_2 imgs k) as [img Himg].
    { apply lookup_lt_Some in Hcfg. lia. }
    assert (Himg' : cur !! k = Some img).
    { rewrite <- (Nat.add_0_r k), <- lookup_drop, Hcur, lookup_drop,
        Nat.add_0_r. exact Himg. }
    rewrite (drop_S imgs img k Himg) in Hns |- *. simpl in Hns.
    destruct (Spec.new_size sp cw cfg (size img)) as [n|e] eqn:Hn;
      simpl in Hns; [|discriminate].
    destruct (Spec.new_sizes sp cw todo (map size (drop (S k) imgs)))
      as [ns'|e] eqn:Hns'; simpl in Hns; [|discriminate].
    injection Hns as <-. apply Forall_cons in Hpos as [Hpn Hpos].
    simpl rescale_loop.
    rewrite (rescale_step_in_grid d (images d) sp cfg k img cw rh
               Hdistinct Hcfg Hin Hcw Hrh cur n Himg' Hn Hpn).
    set (img' := Resized img (fst n) (snd n)).
    rewrite (IH (S k) _ _ ns');
      [| exact Hd | | exact Hcw | | exact Hns' | exact Hpos].
    + f_equal. unfold Spec.rescaled. simpl. fold img'.
      assert (Hlt : (k < length cur)%nat) by (eapply lookup_lt_Some; eauto).
      rewrite (take_S_r (<[k:=img']> cur) k img')
        by (apply list_lookup_insert_eq; exact Hlt).
      rewrite take_insert_ge by lia.
      rewrite <- app_assoc. simpl.
      rewrite Nat.add_succ_r. reflexivity.
    + rewrite drop_insert_lt by lia.
      rewrite (drop_S cur img k Himg') in Hcur.
      rewrite (drop_S imgs img k Himg) in Hcur. congruence.
    + rewrite length_raise_row. exact Hrh.
Qed.
End loops.

Lemma pass1_lengths (sp : Z) (configs : list config) (sizes : list (Z * Z))
    (cw cw' : list num) (rh rh' : list Z) :
  Spec.pass1 sp configs sizes cw rh = Ok (cw', rh') ->
  length cw' = length cw /\ length rh' = length rh.
Proof.
  revert sizes cw rh. induction configs as [|cfg configs IH];
    intros sizes cw rh H; simpl in H.
  - destruct sizes; injection H as <- <-; split; reflexivity.
  - destruct sizes as [|sz sizes]; [injection H as <- <-; split; reflexivity|].
    destruct (Spec.scaledWidth sp cfg sz) as [scaled|e]; simpl in H;
      [|discriminate].
    apply IH in H as [-> ->].
    rewrite length_widen, length_raise_row. split; reflexivity.
Qed.

Lemma pass2_length (configs : list config) (ns : list (Z * Z))
    (rh : list Z) :
  length (Spec.pass2 configs ns rh) = length rh.
Proof.
  revert ns rh. induction configs as [|cfg configs IH];
    intros ns rh; [reflexivity|].
  destruct ns as [|n ns]; [reflexivity|]. simpl.
  rewrite IH, length_raise_row. reflexivity.
Qed.

Lemma new_sizes_length (sp : Z) (cw : list num) (configs : list config)
    (sizes ns : list (Z * Z)) :
  Spec.new_sizes sp cw configs sizes = Ok ns ->
  length ns = Nat.min (length configs) (length sizes).
Proof.
  revert sizes ns. induction configs as [|cfg configs IH];
    intros sizes ns H; simpl in H.
  - destruct sizes; injection H as <-; reflexivity.
  - destruct sizes as [|sz sizes]; [injection H as <-; reflexivity|].
    destruct (Spec.new_size sp cw cfg sz) as [n|e]; simpl in H;
      [|discriminate].
    destruct (Spec.new_sizes sp cw configs sizes) as [ns'|e] eqn:E;
      simpl in H; [|discriminate].
    injection H as <-. simpl. rewrite (IH sizes ns' E). reflexivity.
Qed.

(** ** The position scan in closed form *)

Lemma py_sum_acc (l : list Z) (a : Z) :
  fold_left Z.add l a = a + fold_left Z.add l 0.
Proof.
  revert a. induction l as [|z l IH]; intros a; simpl; [lia|].
  rewrite (IH (a + z)), (IH (0 + z)). lia.
Qed.

Lemma py_sum_cons (z : Z) (l : list Z) : py_sum (z :: l) = z + py_sum l.
Proof. unfold py_sum. simpl. apply py_sum_acc. Qed.

Lemma py_sum_app (l1 l2 : list Z) :
  py_sum (l1 ++ l2) = py_sum l1 + py_sum l2.
Proof.
  induction l1 as [|z l1 IH]; simpl; [reflexivity|].
  rewrite !py_sum_cons, IH. lia.
Qed.

Lemma column_x_succ (steps : list Z) (sp : Z) (c : nat) (dx : Z) :
  steps !! c = Some dx ->
  column_x steps sp (S c) = column_x steps sp c + dx.
Proof.
  intros H. unfold column_x. rewrite (take_S_r _ _ _ H), py_sum_app.
  rewrite py_sum_cons. change (py_sum []) with 0. lia.
Qed.

Lemma row_y_succ (rhs : list Z) (sp : Z) (r : nat) (rh : Z) :
  rhs !! r = Some rh -> row_y rhs sp (S r) = row_y rhs sp r + (rh + sp).
Proof.
  intros H. unfold row_y. rewrite (take_S_r _ _ _ H), map_app, py_sum_app.
  simpl map. rewrite py_sum_cons. change (py_sum []) with 0. lia.
Qed.

Lemma steps_cons (sp : Z) (cw : num) (rest : list num) (steps : list Z) :
  Spec.steps sp (cw :: rest) = Ok steps ->
  exists dx srest,
    column_step sp cw = Ok dx /\ Spec.steps sp rest = Ok srest /\
    steps = dx :: srest.
Proof.
  unfold Spec.steps. simpl. intros H.
  destruct (column_step sp cw) as [dx|e]; simpl in H; [|discriminate].
  destruct (map_result (column_step sp) rest) as [srest|e]; simpl in H;
    [|discriminate].
  injection H as <-. eauto.
Qed.

Lemma scan_columns_positions (configs : list config) (sp r y : Z)
    (steps : list Z) (n : nat) (rest : list num) :
  Spec.steps sp rest = Ok (drop n steps) ->
  scan_columns configs sp r y (Z.of_nat n) rest (column_x steps sp n)
  = Ok (map (fun rc => {| x := column_x steps sp (Z.to_nat (snd rc));
                          y := y |})
          (filter (claimed configs)
             ((fun c' => (r, c')) <$> seqZ (Z.of_nat n) (py_len rest)))).
Proof.
  revert n. induction rest as [|cw rest IH]; intros n Hsteps;
    [reflexivity|].
  rewrite seqZ_cons by (unfold py_len; simpl length; lia).
  replace (Z.pred (py_len (cw :: rest))) with (py_len rest)
    by (unfold py_len; simpl length; lia).
  apply steps_cons in Hsteps as (dx & srest & Hdx & Hrest & Hdrop).
  apply drop_lookup_cons in Hdrop as [Hn Hdrop].
  simpl scan_columns. rewrite Hdx. simpl bind.
  rewrite <- (column_x_succ steps sp n dx Hn).
  replace (Z.of_nat n + 1) with (Z.of_nat (S n)) by lia.
  rewrite (IH (S n)) by (rewrite Hdrop; exact Hrest).
  simpl bind. f_equal.
  rewrite fmap_cons, filter_cons. unfold claimed at 2. simpl fst. simpl snd.
  replace (Z.succ (Z.of_nat n)) with (Z.of_nat (S n)) by lia.
  destruct (decide (cell_claimed configs r (Z.of_nat n) = true))
    as [->|Hn'].
  - simpl. rewrite Nat2Z.id. reflexivity.
  - apply not_true_is_false in Hn'. rewrite Hn'. reflexivity.
Qed.

Lemma column_x_0 (steps : list Z) (sp : Z) : column_x steps sp 0 = sp.
Proof. unfold column_x. rewrite take_0. unfold py_sum. simpl. lia. Qed.

Lemma row_y_0 (rhs : list Z) (sp : Z) : row_y rhs sp 0 = sp.
Proof. unfold row_y. rewrite take_0. simpl. unfold py_sum. simpl. lia. Qed.

Lemma scan_columns_closed_form (configs : list config) (sp r y : Z)
    (cws : list num) (steps : list Z) :
  Spec.steps sp cws = Ok steps ->
  scan_columns configs sp r y 0 cws sp
  = Ok (map (fun rc => {| x := column_x steps sp (Z.to_nat (snd rc));
                          y := y |})
          (filter (claimed configs)
             ((fun c' => (r, c')) <$> seqZ 0 (py_len cws)))).
Proof.
  intros Hsteps.
  pose proof (scan_columns_positions configs sp r y steps 0 cws Hsteps) as H.
  change (Z.of_nat 0) with 0 in H. rewrite column_x_0 in H. exact H.
Qed.

Lemma scan_rows_positions (configs : list config) (cws : list num) (sp : Z)
    (steps : list Z) (rhs done rest : list Z) :
  Spec.steps sp cws = Ok steps ->
  rhs = done ++ rest ->
  scan_rows configs cws sp (Z.of_nat (length done)) rest
    (row_y rhs sp (length done))
  = Ok (map (cell_position steps rhs sp)
          (filter (claimed configs)
             (grid_scan (Z.of_nat (length done)) (py_len rest)
                (py_len cws)))).
Proof.
  intros Hsteps.
  revert done. induction rest as [|rh rest IH]; intros done Hrhs;
    [reflexivity|].
  unfold grid_scan.
  rewrite (seqZ_cons (Z.of_nat (length done)))
    by (unfold py_len; simpl length; lia).
  replace (Z.pred (py_len (rh :: rest))) with (py_len rest)
    by (unfold py_len; simpl length; lia).
  assert (Hrh : rhs !! length done = Some rh).
  { rewrite Hrhs. apply list_lookup_middle. reflexivity. }
  simpl scan_rows. rewrite <- (row_y_succ rhs sp _ rh Hrh).
  rewrite (scan_columns_closed_form _ _ _ _ _ steps Hsteps). simpl bind.
  specialize (IH (done ++ [rh])). rewrite length_app in IH. simpl in IH.
  replace (Z.of_nat (length done) + 1)
    with (Z.of_nat (length done + 1)) by lia.
  replace (S (length done)) with (length done + 1)%nat by lia.
  rewrite IH by (rewrite Hrhs, <- app_assoc; reflexivity).
  simpl bind. f_equal.
  rewrite bind_cons, filter_app, map_app. f_equal.
  - apply map_ext_in. intros [r' c'] Hin.
    apply list_elem_of_In, list_elem_of_filter in Hin as [_ Hin].
    apply list_elem_of_fmap in Hin as (c'' & Heq & _).
    injection Heq as -> ->. unfold cell_position. simpl.
    rewrite Nat2Z.id. reflexivity.
  - unfold grid_scan.
    replace (Z.succ (Z.of_nat (length done)))
      with (Z.of_nat (length done + 1)) by lia.
    reflexivity.
Qed.

(** The positions of the dict branch, for any column widths whose steps
    are defined and any row heights: those of the claimed cells, in scan
    order. *)
Lemma scan_rows_closed_form (configs : list config) (cws : list num) (sp : Z)
    (steps : list Z) (rhs : list Z) :
  Spec.steps sp cws = Ok steps ->
  scan_rows configs cws sp 0 rhs sp
  = Ok (map (cell_position steps rhs sp)
          (filter (claimed configs) (grid_scan 0 (py_len rhs) (py_len cws)))).
Proof.
  intros Hsteps.
  pose proof (scan_rows_positions configs cws sp steps rhs [] rhs Hsteps
                eq_refl) as H.
  change (length (@nil Z)) with 0%nat in H. change (Z.of_nat 0) with 0 in H.
  rewrite row_y_0 in H. exact H.
Qed.

Lemma grid_scan_of_lengths (n_rows n_cols : Z) :
  grid_scan 0 (Z.of_nat (Z.to_nat n_rows)) (Z.of_nat (Z.to_nat n_cols))
  = grid_scan 0 n_rows n_cols.
Proof. unfold grid_scan, seqZ. rewrite !Nat2Z.id. reflexivity. Qed.

(** ** The dict branch on rules whose configs are distinct and in the grid *)

Lemma two_passes_Ok (sp : Z) (d : layout_dict) (sizes : list (Z * Z))
    (out : Spec.outcome) :
  Spec.two_passes sp d sizes = Ok out ->
  exists rh1,
    Spec.pass1 sp (images d) sizes
      (replicate (Z.to_nat (columns d)) (PyInt 0))
      (replicate (Z.to_nat (rows d)) 0) = Ok (Spec.colWidth out, rh1) /\
    Spec.new_sizes sp (Spec.colWidth out) (images d) sizes
    = Ok (Spec.newSize out) /\
    Spec.rowHeight out = Spec.pass2 (images d) (Spec.newSize out) rh1 /\
    Spec.canvas sp (rows d) (columns d) (Spec.colWidth out)
      (Spec.rowHeight out) = Ok (Spec.canvasSize out).
Proof.
  unfold Spec.two_passes. intros H.
  destruct (Spec.pass1 _ _ _ _ _) as [[cw rh1]|e] eqn:Hp1; simpl in H;
    [|discriminate].
  destruct (Spec.new_sizes _ _ _ _) as [ns|e] eqn:Hns; simpl in H;
    [|discriminate].
  destruct (Spec.canvas _ _ _ _ _) as [c|e] eqn:Hc; simpl in H; [|discriminate].
  injection H as <-. simpl. exists rh1.
  split; [reflexivity|]. split; [exact Hns|]. split; [reflexivity | exact Hc].
Qed.

Lemma canvas_and_positions_Ok (configs : list config) (n_rows n_cols sp : Z)
    (cws : list num) (rhs : list Z) (c : Z * Z) (steps : list Z) :
  Spec.canvas sp n_rows n_cols cws rhs = Ok c ->
  Spec.steps sp cws = Ok steps ->
  canvas_and_positions configs n_rows n_cols cws rhs sp
  = Ok (map (cell_position steps rhs sp)
          (filter (claimed configs) (grid_scan 0 (py_len rhs) (py_len cws))),
        fst c, snd c).
Proof.
  unfold Spec.canvas, canvas_and_positions. intros Hc Hsteps.
  destruct (py_sum_num cws) as [s|e]; simpl in Hc |- *; [|discriminate].
  destruct (py_add s _) as [t|e]; simpl in Hc |- *; [|discriminate].
  destruct (py_int t) as [w|e]; simpl in Hc |- *; [|discriminate].
  injection Hc as <-.
  rewrite (scan_rows_closed_form configs cws sp steps rhs Hsteps).
  reflexivity.
Qed.

(** The dict branch on a rule whose configs are pairwise distinct and lie
    in the grid, given at least as many images as configs, when the two
    passes of the specification are defined and give sizes that [resize]
    accepts: no exception, and the result is that of the two passes.
    Images beyond the last config stay as they are. *)
Lemma explicit_layout_in_grid (d : layout_dict) (imgs : list image) (sp : Z)
    (out : Spec.outcome) (steps : list Z) :
  NoDup (images d) -> Forall (in_grid d) (images d) ->
  (length (images d) <= length imgs)%nat ->
  Spec.two_passes sp d (map size imgs) = Ok out ->
  Forall positive_size (Spec.newSize out) ->
  Spec.steps sp (Spec.colWidth out) = Ok steps ->
  explicit_layout d imgs sp
  = (Ok (map (cell_position steps (Spec.rowHeight out) sp)
           (filter (claimed (images d)) (grid_scan 0 (rows d) (columns d))),
         fst (Spec.canvasSize out), snd (Spec.canvasSize out)),
     Spec.rescaled imgs (Spec.newSize out) ++ drop (length (images d)) imgs).
Proof.
  intros Hnd Hgrid Hlen Hout Hpos Hsteps.
  apply two_passes_Ok in Hout as (rh1 & Hp1 & Hns & Hrh & Hc).
  unfold explicit_layout, py_repeat.
  rewrite (sizing_loop d sp imgs Hnd (images d) [] 0);
    [| rewrite app_nil_r; reflexivity | exact Hgrid | exact Hlen
     | apply length_replicate | apply length_replicate].
  rewrite drop_0, Hp1.
  destruct (pass1_lengths _ _ _ _ _ _ _ Hp1) as [Hcw Hrh1].
  rewrite length_replicate in Hcw. rewrite length_replicate in Hrh1.
  rewrite (rescaling_loop d sp imgs Hnd Hgrid Hlen (Spec.colWidth out)
             (images d) 0 rh1 imgs (Spec.newSize out));
    [| reflexivity | reflexivity | exact Hcw | exact Hrh1
     | rewrite drop_0; exact Hns | exact Hpos].
  rewrite drop_0, <- Hrh. simpl take. simpl app.
  rewrite (canvas_and_positions_Ok _ _ _ _ _ _ _ steps Hc Hsteps).
  unfold py_len. rewrite Hrh, pass2_length, Hrh1, Hcw, grid_scan_of_lengths.
  reflexivity.
Qed.

Lemma valid_rule_widths (d : layout_dict) (imgs : list image) :
  valid_rule d imgs -> Forall (fun img => fst (size img) <> 0) imgs.
Proof.
  intros H. eapply Forall_impl; [apply (valid_sizes _ _ H)|].
  simpl. intros img [Hw _]. lia.
Qed.

(** C2. Explicit mode: for every valid rule (one config per image, configs
    pairwise distinct and inside the declared grid, positive image sizes)
    and every spacing S for which the two passes are defined in the
    program's arithmetic (no division overflows, every sum and product can
    be truncated) and give every image a new size of at least 1 x 1, the
    calculator returns normally and its rescaled images and canvas are
    those of the two passes as the specification words them, config i
    sizing image i: pass 1 sets colWidth over the spanned columns to the
    max of the current value and (imageWidth + (span-1)*S)/span (float
    division) and rowHeight[r] to the max of the current value and the raw
    image height; pass 2 rescales each image to
    (trunc(w*scale), trunc(h*scale)) with
    scale = (sum of colWidth over the span + (span-1)*S)/w and raises
    rowHeight[r] to the new height; the canvas is
    (trunc(sum(colWidth) + (cols+1)*S), trunc(sum(rowHeight) + (rows+1)*S)).
    [steps] are the advances trunc(colWidth[c] + S) of the position
    scan. *)
Theorem explicit_two_passes (d : layout_dict) (img_objects : list image)
    (S : Z) (out : Spec.outcome) (steps : list Z) :
  valid_rule d img_objects ->
  Spec.two_passes S d (map size img_objects) = Ok out ->
  Forall positive_size (Spec.newSize out) ->
  Spec.steps S (Spec.colWidth out) = Ok steps ->
  exists layout,
    calculate_layout (RDict d) img_objects S
    = (Ok (layout, fst (Spec.canvasSize out), snd (Spec.canvasSize out)),
       Spec.rescaled img_objects (Spec.newSize out)).
Proof.
  intros Hvalid Hout Hpos Hsteps.
  eexists. simpl calculate_layout.
  rewrite (explicit_layout_in_grid d img_objects S out steps);
    [| apply (valid_distinct _ _ Hvalid)
     | apply (valid_in_grid _ _ Hvalid)
     | rewrite (valid_length _ _ Hvalid); reflexivity
     | exact Hout | exact Hpos | exact Hsteps].
  rewrite (valid_length _ _ Hvalid), drop_all, app_nil_r.
  reflexivity.
Qed.

Lemma two_row_rule_valid : valid_rule two_row_rule three_images.
Proof.
  split.
  - reflexivity.
  - simpl. repeat (constructor; [unfold in_grid, span_of; simpl; lia|]).
    constructor.
  - simpl. refine (bool_decide_unpack _ _). vm_compute. exact I.
  - repeat (constructor; [simpl; lia|]). constructor.
Defined.

Lemma explicit_two_passes_witness :
  exists layout,
    calculate_layout (RDict two_row_rule) three_images 10
    = (Ok (layout, 145, 147),
       [Resized (Opened "a.png" 100 50) 125 62;
        Resized (Opened "b.png" 60 40) 60 40;
        Resized (Opened "c.png" 40 40) 55 55]).
Proof.
  edestruct (explicit_two_passes two_row_rule three_images 10)
    as [layout H].
  - exact two_row_rule_valid.
  - vm_compute. reflexivity.
  - refine (bool_decide_unpack _ _). vm_compute. exact I.
  - vm_compute. reflexivity.
  - exists layout. exact H.
Defined.

(** ** The position scan: one entry per claimed cell *)

Lemma cell_claimed_spec (configs : list config) (r c : Z) :
  cell_claimed configs r c = true <-> (r, c) ∈ cell_of <$> configs.
Proof.
  unfold cell_claimed. induction configs as [|cfg configs IH]; simpl.
  - rewrite elem_of_nil. split; [discriminate | tauto].
  - rewrite elem_of_cons, orb_true_iff, IH, andb_true_iff.
    rewrite !Z.eqb_eq. unfold cell_of. split.
    + intros [[<- <-]|H]; [left; reflexivity | right; exact H].
    + intros [H|H]; [left; split; congruence | right; exact H].
Qed.

Lemma elem_of_grid_scan (n_rows n_cols r c : Z) :
  (r, c) ∈ grid_scan 0 n_rows n_cols <-> 0 <= r < n_rows /\ 0 <= c < n_cols.
Proof.
  unfold grid_scan. rewrite list_elem_of_bind. split.
  - intros (r' & Hc & Hr). apply list_elem_of_fmap in Hc as (c' & Heq & Hc).
    injection Heq as -> ->. apply elem_of_seqZ in Hc, Hr. lia.
  - intros [Hr Hc]. exists r. split.
    + apply list_elem_of_fmap. exists c. split; [reflexivity|].
      apply elem_of_seqZ. lia.
    + apply elem_of_seqZ. lia.
Qed.

Lemma NoDup_grid_scan (n_rows n_cols : Z) :
  NoDup (grid_scan 0 n_rows n_cols).
Proof.
  unfold grid_scan. apply NoDup_bind.
  - intros r1 r2 rc _ _ H1 H2.
    apply list_elem_of_fmap in H1 as (c1 & -> & _).
    apply list_elem_of_fmap in H2 as (c2 & Heq & _). congruence.
  - intros r _. apply NoDup_fmap_2; [|apply NoDup_seqZ].
    intros c1 c2 Heq. congruence.
  - apply NoDup_seqZ.
Qed.

(** When the configs name pairwise distinct cells of the grid, the scan
    emits as many positions as there are configs. *)
Lemma claimed_cells_count (configs : list config) (n_rows n_cols : Z) :
  NoDup (cell_of <$> configs) ->
  Forall (fun cfg => 0 <= row_of cfg < n_rows /\ 0 <= col_of cfg < n_cols)
    configs ->
  length (filter (claimed configs) (grid_scan 0 n_rows n_cols))
  = length configs.
Proof.
  intros Hnd Hin. rewrite <- (length_fmap cell_of configs).
  apply Permutation_length, NoDup_Permutation.
  - apply NoDup_filter, NoDup_grid_scan.
  - exact Hnd.
  - intros [r c]. rewrite list_elem_of_filter. unfold claimed. simpl.
    rewrite cell_claimed_spec, elem_of_grid_scan. split; [tauto|].
    intros Hrc. split; [exact Hrc|].
    apply list_elem_of_fmap in Hrc as (cfg & Heq & Hcfg).
    rewrite Forall_forall in Hin. specialize (Hin cfg Hcfg).
    unfold cell_of in Heq. injection Heq as -> ->. exact Hin.
Qed.

(** ** The number of placements *)

Lemma in_grid_cell (d : layout_dict) :
  Forall (in_grid d) (images d) ->
  Forall (fun cfg => 0 <= row_of cfg < rows d /\ 0 <= col_of cfg < columns d)
    (images d).
Proof.
  intros Hgrid. eapply Forall_impl; [exact Hgrid|]. simpl.
  intros cfg (Hr & Hc & Hs & He). unfold row_of, col_of. lia.
Qed.

Lemma explicit_layout_length (d : layout_dict) (imgs : list image) (sp : Z)
    (out : Spec.outcome) (steps : list Z) :
  valid_rule d imgs -> NoDup (cell_of <$> images d) ->
  Spec.two_passes sp d (map size imgs) = Ok out ->
  Forall positive_size (Spec.newSize out) ->
  Spec.steps sp (Spec.colWidth out) = Ok steps ->
  exists layout w h imgs',
    explicit_layout d imgs sp = (Ok (layout, w, h), imgs') /\
    length layout = length imgs.
Proof.
  intros Hvalid Hcells Hout Hpos Hsteps.
  pose proof (valid_in_grid _ _ Hvalid) as Hgrid.
  rewrite (explicit_layout_in_grid d imgs sp out steps);
    [| apply (valid_distinct _ _ Hvalid)
     | exact Hgrid
     | rewrite (valid_length _ _ Hvalid); reflexivity
     | exact Hout | exact Hpos | exact Hsteps].
  do 4 eexists. split; [reflexivity|].
  rewrite length_map, <- (valid_length _ _ Hvalid).
  apply claimed_cells_count; [exact Hcells | apply in_grid_cell, Hgrid].
Qed.

(** C3, as stated, fails: three images in two columns give four
    placements. *)
Lemma layout_length_counterexample :
  calculate_layout (RInt 2) square_and_oblong 10
  = (Ok ([{| x := 10; y := 10 |}; {| x := 153; y := 10 |};
          {| x := 10; y := 153 |}; {| x := 153; y := 153 |}], 296, 296),
     square_and_oblong) /\
  length square_and_oblong = 3%nat.
Proof. vm_compute. split; reflexivity. Qed.

(** C3, amended. The layout holds one placement per cell of the grid, in
    scan order.  Grid mode with N >= 1 images and C > 0 columns, N and C
    below 2^53, yields ceil(N/C)*C placements: at least N, fewer than
    N + C, and exactly N precisely when C divides N.  Grid mode with
    columns = 0 and N >= 1 images yields exactly N placements in a single
    row (every y is the spacing), left to right in input order.  Explicit
    mode with a valid rule whose configs name pairwise distinct cells
    yields exactly N placements whenever the two passes are defined and
    give every image a size of at least 1 x 1. *)
Theorem layout_length (img_objects : list image) (S : Z) :
  let N := py_len img_objects in
  (img_objects <> [] ->
   (forall C, N < 2 ^ 53 -> 0 < C < 2 ^ 53 ->
      exists layout w h,
        calculate_layout (RInt C) img_objects S
        = (Ok (layout, w, h), img_objects) /\
        py_len layout = (N + C - 1) / C * C /\
        N <= py_len layout < N + C /\
        (py_len layout = N <-> N mod C = 0)) /\
   (exists layout w h,
      calculate_layout (RInt 0) img_objects S
      = (Ok (layout, w, h), img_objects) /\
      py_len layout = N /\
      forall i, 0 <= i < N ->
        py_getitem layout i
        = Ok {| x := S + i * (cell_width img_objects + S); y := S |})) /\
  (forall d out steps,
     valid_rule d img_objects -> NoDup (cell_of <$> images d) ->
     Spec.two_passes S d (map size img_objects) = Ok out ->
     Forall positive_size (Spec.newSize out) ->
     Spec.steps S (Spec.colWidth out) = Ok steps ->
     exists layout w h imgs',
       calculate_layout (RDict d) img_objects S = (Ok (layout, w, h), imgs') /\
       py_len layout = N).
Proof.
  intros N. split; [intros Hne; split|].
  - intros C HN HC.
    pose proof (py_len_pos img_objects Hne) as HN0. fold N in HN0.
    assert (HC0 : 0 < C) by lia.
    do 3 eexists. split.
    + simpl.
      rewrite (grid_layout_nonempty img_objects C S ((N + C - 1) / C) Hne).
      * destruct (Z.eqb_spec C 0) as [?|_]; [lia|]. reflexivity.
      * destruct (Z.eqb_spec C 0) as [?|_]; [lia|].
        apply math_ceil_truediv; fold N; lia.
    + pose proof (ceil_div_bounds N C HC0) as Hb.
      set (nrows := (N + C - 1) / C) in *.
      assert (Hrows : 0 <= nrows).
      { apply Z.div_pos; lia. }
      assert (Hlen : py_len (grid_cells nrows C (cell_width img_objects)
                               (cell_height img_objects) S) = nrows * C).
      { unfold py_len. rewrite grid_cells_length. lia. }
      rewrite Hlen. split; [reflexivity|]. split; [lia|]. split.
      * intros Heq. rewrite <- Heq. apply Z.mod_mul. lia.
      * intros Hmod. apply Z.div_exact in Hmod; [|lia].
        clearbody nrows. set (q := N / C) in *.
        assert (nrows - 1 < q) by (apply (Z.mul_lt_mono_pos_l C); lia).
        assert (q <= nrows) by (apply (Z.mul_le_mono_pos_l _ _ C); lia).
        replace nrows with q by lia. lia.
  - do 3 eexists. split; [|split].
    + simpl. rewrite (grid_layout_nonempty img_objects 0 S 1 Hne);
        reflexivity.
    + simpl Z.eqb. cbv iota. unfold py_len at 1.
      rewrite grid_cells_length. fold N.
      pose proof (py_len_nonneg img_objects) as HN. fold N in HN. lia.
    + intros i Hi. simpl Z.eqb. cbv iota. fold N.
      apply py_getitem_lookup; [lia|].
      rewrite grid_cells_lookup by lia.
      rewrite Z.mod_small, Z.div_small by lia.
      do 2 f_equal. lia.
  - intros d out steps Hvalid Hcells Hout Hpos Hsteps.
    destruct (explicit_layout_length d img_objects S out steps Hvalid Hcells
                Hout Hpos Hsteps)
      as (layout & w & h & imgs' & Heq & Hlen).
    exists layout, w, h, imgs'. split; [exact Heq|].
    unfold N, py_len. rewrite Hlen. reflexivity.
Qed.

Lemma layout_length_witness :
  (exists layout w h,
     calculate_layout (RInt 2) square_and_oblong 10
     = (Ok (layout, w, h), square_and_oblong) /\
     py_len layout = 4) /\
  (exists layout w h imgs',
     calculate_layout (RDict two_row_rule) three_images 10
     = (Ok (layout, w, h), imgs') /\
     py_len layout = 3).
Proof.
  split.
  - destruct (layout_length square_and_oblong 10) as [Hgrid _].
    destruct Hgrid as [Hcols _]; [discriminate|].
    destruct (Hcols 2) as (layout & w & h & Heq & Hlen & _);
      [reflexivity | split; reflexivity |].
    exists layout, w, h. split; [exact Heq | exact Hlen].
  - destruct (layout_length three_images 10) as [_ Hdict].
    eapply (Hdict two_row_rule).
    + exact two_row_rule_valid.
    + simpl. refine (bool_decide_unpack _ _). vm_compute. exact I.
    + vm_compute. reflexivity.
    + refine (bool_decide_unpack _ _). vm_compute. exact I.
    + vm_compute. reflexivity.
Defined.

(** ** Order of the placements in explicit mode *)

(** C4. On [swapped_rule] the returned sequence follows the scan, not the
    image index: entry 0 is the position of the cell in column 1, which
    config 1 names, and [create_collage] pastes image 0, whose config names
    column 2, at that position. *)
Lemma scan_order_placements :
  calculate_layout (RDict swapped_rule) two_images 10
  = (Ok ([{| x := 10; y := 10 |}; {| x := 80; y := 10 |}], 190, 70),
     [Resized (Opened "a.png" 100 50) 100 50;
      Resized (Opened "b.png" 60 40) 60 40]) /\
  create_collage two_images 10 (RDict swapped_rule)
  = Ok ([(Resized (Opened "a.png" 100 50) 100 50, {| x := 10; y := 10 |});
         (Resized (Opened "b.png" 60 40) 60 40, {| x := 80; y := 10 |})],
        (190, 70)) /\
  cell_of (Config 1 2 None) = (0, 1) /\ cell_of (Config 1 1 None) = (0, 0).
Proof. vm_compute. repeat split; reflexivity. Qed.

(** ** Which image a config sizes *)

(** C5. On [twin_rule], [configs.index(config)] is 0 in both iterations of
    both loops: image 0 is measured twice and resized twice, image 1 is
    never read, and the column is 100 wide where config 1 describing
    image 1 makes it 200 wide. *)
Lemma twin_configs_use_first_image :
  calculate_layout (RDict twin_rule) narrow_and_wide 10
  = (Ok ([{| x := 10; y := 10 |}], 120, 120),
     [Resized (Resized (Opened "a.png" 100 100) 100 100) 100 100;
      Opened "b.png" 200 100]) /\
  py_index (Config 1 1 None) (images twin_rule) = Ok 0 /\
  Spec.pass1 10 (images twin_rule) (map size narrow_and_wide)
    (py_repeat (PyInt 0) 1) (py_repeat 0 1)
  = Ok ([PyFloat (float_of 200)], [100]).
Proof. vm_compute. repeat split; reflexivity. Qed.

(** ** Containment in the canvas *)

(** C6. On [wide_first_rule] with spacing 100 the canvas is 710 wide, and
    the second image, rescaled to width 400, is pasted at x = 600: the
    position of column 3, which is the cell of the first config. *)
Lemma placement_past_right_edge :
  create_collage small_and_wide 100 (RDict wide_first_rule)
  = Ok ([(Resized (Opened "a.png" 10 10) 10 10, {| x := 100; y := 100 |});
         (Resized (Opened "b.png" 200 100) 400 200,
          {| x := 600; y := 100 |})],
        (710, 400)) /\
  valid_rule wide_first_rule small_and_wide /\
  NoDup (cell_of <$> images wide_first_rule) /\
  bool_decide
    (contained
       ([(Resized (Opened "a.png" 10 10) 10 10, {| x := 100; y := 100 |});
         (Resized (Opened "b.png" 200 100) 400 200,
          {| x := 600; y := 100 |})],
        (710, 400)))
  = false.
Proof.
  split; [vm_compute; reflexivity|]. split; [|split].
  - split.
    + reflexivity.
    + simpl. repeat (constructor; [unfold in_grid, span_of; simpl; lia|]).
      constructor.
    + simpl. refine (bool_decide_unpack _ _). vm_compute. exact I.
    + repeat (constructor; [simpl; lia|]). constructor.
  - simpl. refine (bool_decide_unpack _ _). vm_compute. exact I.
  - vm_compute. reflexivity.
Qed.

(** ** Zero images *)

Lemma py_sum_from_zeros (n : nat) (a : Z) :
  py_sum_from (PyInt a) (replicate n (PyInt 0)) = Ok (PyInt a).
Proof.
  induction n as [|n IH]; [reflexivity|].
  simpl. unfold py_add. simpl bind. rewrite Z.add_0_r. exact IH.
Qed.

Lemma py_sum_zeros (n : nat) (acc : Z) :
  fold_left Z.add (replicate n 0) acc = acc.
Proof.
  revert acc. induction n as [|n IH]; intros acc; [reflexivity|].
  simpl. rewrite IH. lia.
Qed.

Lemma scan_columns_no_config (sp r y : Z) (n : nat) (c x : Z) :
  scan_columns [] sp r y c (replicate n (PyInt 0)) x = Ok [].
Proof.
  revert c x. induction n as [|n IH]; intros c x; [reflexivity|].
  simpl. unfold column_step, py_add, py_int. simpl bind.
  rewrite IH. reflexivity.
Qed.

Lemma scan_rows_no_config (n : nat) (sp : Z) (rhs : list Z) (r y : Z) :
  scan_rows [] (replicate n (PyInt 0)) sp r rhs y = Ok [].
Proof.
  revert r y. induction rhs as [|rh rhs IH]; intros r y; [reflexivity|].
  simpl. rewrite scan_columns_no_config. simpl bind. rewrite IH. reflexivity.
Qed.

(** The dict branch on a rule without configs: both loops are skipped. *)
Lemma explicit_layout_no_config (d : layout_dict) (imgs : list image)
    (sp : Z) :
  images d = [] ->
  explicit_layout d imgs sp
  = (Ok ([], (columns d + 1) * sp, (rows d + 1) * sp), imgs).
Proof.
  intros Hd. unfold explicit_layout. rewrite Hd. simpl.
  unfold canvas_and_positions, py_repeat, py_sum_num.
  rewrite py_sum_from_zeros. simpl bind. unfold py_add, py_int. simpl bind.
  rewrite scan_rows_no_config. simpl bind.
  unfold py_sum. rewrite py_sum_zeros. reflexivity.
Qed.

(** The first iteration of the dict branch without images fails on
    [img_objects[0]]. *)
Lemma explicit_layout_no_image (d : layout_dict) (sp : Z) :
  images d <> [] ->
  explicit_layout d [] sp = (Raise IndexError, []).
Proof.
  intros Hd. unfold explicit_layout.
  destruct (images d) as [|cfg configs] eqn:E; [congruence|].
  simpl. unfold sizing_step. simpl.
  destruct (decide (cfg = cfg)); [|congruence]. reflexivity.
Qed.

(** C7, as stated, fails: without images the dict branch returns normally
    on a rule without configs, and the int branch fails in the division by
    the number of images. *)
Lemma empty_input_counterexample :
  calculate_layout (RDict empty_rule) [] 10 = (Ok ([], 20, 20), []) /\
  calculate_layout (RInt 2) [] 10 = (Raise ZeroDivisionError, []).
Proof. vm_compute. split; reflexivity. Qed.

(** C7, amended. There is no empty-input error in the calculator; the
    check for no image is made by [create_collage], which raises ValueError
    before the calculator is called.  Called on zero images, the grid path
    raises ZeroDivisionError (the average divides by the image count); the
    explicit path returns an empty layout and the canvas
    ((columns+1)*S, (rows+1)*S) when the rule has no config, and raises
    IndexError at its first config otherwise. *)
Theorem zero_images (S : Z) :
  (forall r, create_collage [] S r = Raise ValueError) /\
  (forall n, calculate_layout (RInt n) [] S = (Raise ZeroDivisionError, [])) /\
  (forall d, images d = [] ->
     calculate_layout (RDict d) [] S
     = (Ok ([], (columns d + 1) * S, (rows d + 1) * S), [])) /\
  (forall d, images d <> [] ->
     calculate_layout (RDict d) [] S = (Raise IndexError, [])).
Proof.
  split; [reflexivity|]. split; [reflexivity|]. split.
  - intros d Hd. apply explicit_layout_no_config. exact Hd.
  - intros d Hd. apply explicit_layout_no_image. exact Hd.
Qed.

Lemma zero_images_witness :
  calculate_layout (RDict empty_rule) [] 10 = (Ok ([], 20, 20), []) /\
  calculate_layout (RDict swapped_rule) [] 10 = (Raise IndexError, []).
Proof.
  destruct (zero_images 10) as (_ & _ & Hnone & Hsome). split.
  - apply (Hnone empty_rule). reflexivity.
  - apply (Hsome swapped_rule). discriminate.
Defined.

(** ** Spacings and widths far inside the range of binary64 *)

Lemma scaledWidth_in_range (sp : Z) (cfg : config) (sz : Z * Z) :
  1 <= span_of cfg -> in_float_range sp -> in_float_range (fst sz) ->
  exists f, Spec.scaledWidth sp cfg sz = Ok (PyFloat f).
Proof.
  unfold in_float_range. intros Hspan Hsp Hw. unfold Spec.scaledWidth.
  apply py_truediv_ints_finite; [lia|].
  set (B := 2 ^ 1000) in *. set (s := span_of cfg) in *.
  pose proof (Z.abs_triangle (fst sz) ((s - 1) * sp)) as Ht.
  rewrite Z.abs_mul in Ht.
  rewrite (Z.abs_eq s) by lia. rewrite (Z.abs_eq (s - 1)) in Ht by lia.
  assert ((s - 1) * Z.abs sp <= (s - 1) * B)
    by (apply Z.mul_le_mono_nonneg_l; lia).
  lia.
Qed.

(** Pass 1 of the specification cannot fail on configs with span >= 1 when
    the spacing and the widths are in range. *)
Lemma pass1_in_range (sp : Z) (configs : list config) (sizes : list (Z * Z))
    (cw : list num) (rh : list Z) :
  Forall (fun cfg => 1 <= span_of cfg) configs ->
  in_float_range sp -> Forall (fun sz => in_float_range (fst sz)) sizes ->
  exists r, Spec.pass1 sp configs sizes cw rh = Ok r.
Proof.
  intros Hspan Hsp. revert sizes cw rh.
  induction Hspan as [|cfg configs Hs _ IH]; intros sizes cw rh Hsz.
  - destruct sizes; simpl; eauto.
  - destruct sizes as [|sz sizes]; simpl; [eauto|].
    apply Forall_cons in Hsz as [Hw Hsz].
    destruct (scaledWidth_in_range sp cfg sz Hs Hsp Hw) as [f ->].
    simpl. apply IH. exact Hsz.
Qed.

Lemma in_grid_span (d : layout_dict) (configs : list config) :
  Forall (in_grid d) configs -> Forall (fun cfg => 1 <= span_of cfg) configs.
Proof.
  intros H. eapply Forall_impl; [exact H|]. simpl.
  intros cfg (_ & _ & Hs & _). exact Hs.
Qed.

Lemma widths_in_range (imgs : list image) :
  Forall (fun img => in_float_range (fst (size img))) imgs ->
  Forall (fun sz => in_float_range (fst sz)) (map size imgs).
Proof. intros H. apply Forall_fmap. exact H. Qed.

(** ** Rules that are malformed *)

Lemma for_each_app {A St : Type} (body : A -> St -> result St)
    (xs ys : list A) (st : St) :
  for_each body (xs ++ ys) st
  = (st' <- for_each body xs st ;; for_each body ys st').
Proof.
  revert st. induction xs as [|a xs IH]; intros st; [reflexivity|].
  simpl. destruct (body a st) as [st'|e]; simpl; [apply IH | reflexivity].
Qed.

(** More configs than images: the first config without an image raises
    IndexError in the first loop, before any image is replaced. *)
Lemma explicit_layout_missing_image (d : layout_dict) (imgs : list image)
    (sp : Z) :
  NoDup (images d) -> Forall (in_grid d) (images d) ->
  (length imgs < length (images d))%nat ->
  in_float_range sp ->
  Forall (fun img => in_float_range (fst (size img))) imgs ->
  explicit_layout d imgs sp = (Raise IndexError, imgs).
Proof.
  intros Hnd Hgrid Hlen Hsp Hw. unfold explicit_layout.
  set (n := length imgs).
  destruct (lookup_lt_is_Some_2 (images d) n Hlen) as [cfg Hcfg].
  rewrite <- (take_drop n (images d)) at 2.
  rewrite for_each_app.
  rewrite (sizing_loop d sp imgs Hnd (take n (images d))
             (drop n (images d)) 0);
    [| rewrite take_drop; reflexivity
     | apply Forall_take; exact Hgrid
     | rewrite length_take; unfold n; lia
     | apply length_replicate | apply length_replicate].
  destruct (pass1_in_range sp (take n (images d)) (map size (drop 0 imgs))
              (py_repeat (PyInt 0) (columns d)) (py_repeat 0 (rows d)))
    as [[cw rh] ->].
  { apply (in_grid_span d), Forall_take, Hgrid. }
  { exact Hsp. }
  { rewrite drop_0. apply widths_in_range, Hw. }
  simpl bind. rewrite (drop_S _ _ _ Hcfg). simpl for_each.
  unfold sizing_step at 1.
  rewrite (py_index_lookup (images d) n cfg Hnd Hcfg). simpl bind.
  rewrite py_getitem_ge by (unfold py_len, n; lia). reflexivity.
Qed.

(** C8, as stated, fails: one config for two images is accepted, and the
    second image is left as it is. *)
Lemma config_count_counterexample :
  calculate_layout (RDict one_cell_rule) two_images 10
  = (Ok ([{| x := 10; y := 10 |}], 120, 70),
     [Resized (Opened "a.png" 100 50) 100 50; Opened "b.png" 60 40]) /\
  length (images one_cell_rule) <> length two_images.
Proof. vm_compute. split; [reflexivity | discriminate]. Qed.

(** C8, amended. A rule that is neither a dict nor an int makes the
    calculator raise ValueError, its error for a malformed rule.  The number
    of configs is not compared with the number of images, for configs that
    are pairwise distinct and in the grid.  With k configs for more than k
    images, whenever the two passes over the first k images are defined and
    give sizes of at least 1 x 1, the calculator returns normally: entry
    i < k of the list of images is then a resized handle of image i, at the
    size pass 2 gives it, and the images from k on are left as they are.
    With more configs than images, and a spacing and image widths below
    2^1000 in absolute value, it raises IndexError at the first config that
    has no image, before any image is replaced. *)
Theorem malformed_rule (img_objects : list image) (S : Z) :
  calculate_layout ROther img_objects S = (Raise ValueError, img_objects) /\
  (forall d out steps,
     NoDup (images d) -> Forall (in_grid d) (images d) ->
     (length (images d) < length img_objects)%nat ->
     Spec.two_passes S d (map size img_objects) = Ok out ->
     Forall positive_size (Spec.newSize out) ->
     Spec.steps S (Spec.colWidth out) = Ok steps ->
     exists layout w h resized,
       calculate_layout (RDict d) img_objects S
       = (Ok (layout, w, h),
          resized ++ drop (length (images d)) img_objects) /\
       length resized = length (images d) /\
       forall i img n,
         img_objects !! i = Some img -> Spec.newSize out !! i = Some n ->
         resized !! i = Some (Resized img (fst n) (snd n))) /\
  (forall d,
     NoDup (images d) -> Forall (in_grid d) (images d) ->
     (length img_objects < length (images d))%nat ->
     in_float_range S ->
     Forall (fun img => in_float_range (fst (size img))) img_objects ->
     calculate_layout (RDict d) img_objects S
     = (Raise IndexError, img_objects)).
Proof.
  split; [reflexivity|]. split.
  - intros d out steps Hnd Hgrid Hlen Hout Hpos Hsteps. simpl.
    rewrite (explicit_layout_in_grid d img_objects S out steps);
      [| exact Hnd | exact Hgrid | apply Nat.lt_le_incl; exact Hlen
       | exact Hout | exact Hpos | exact Hsteps].
    do 4 eexists. split; [reflexivity|].
    apply two_passes_Ok in Hout as (rh1 & _ & Hns & _).
    apply new_sizes_length in Hns. rewrite length_map in Hns.
    split.
    + unfold Spec.rescaled. rewrite length_zip_with. lia.
    + intros i img n Himg Hn. unfold Spec.rescaled.
      rewrite lookup_zip_with, Himg. simpl. rewrite Hn. reflexivity.
  - intros d Hnd Hgrid Hlen Hsp Hw. simpl.
    apply explicit_layout_missing_image; assumption.
Qed.

Lemma malformed_rule_witness :
  (exists layout w h resized,
     calculate_layout (RDict one_cell_rule) two_images 10
     = (Ok (layout, w, h), resized ++ [Opened "b.png" 60 40]) /\
     resized !! 0%nat = Some (Resized (Opened "a.png" 100 50) 100 50)) /\
  calculate_layout (RDict swapped_rule) [Opened "a.png" 100 50] 10
  = (Raise IndexError, [Opened "a.png" 100 50]).
Proof.
  split.
  - destruct (malformed_rule two_images 10) as (_ & Hfewer & _).
    edestruct (Hfewer one_cell_rule)
      as (layout & w & h & resized & Heq & _ & Hres).
    + simpl. refine (bool_decide_unpack _ _). vm_compute. exact I.
    + simpl. repeat (constructor; [unfold in_grid, span_of; simpl; lia|]).
      constructor.
    + simpl. lia.
    + vm_compute. reflexivity.
    + refine (bool_decide_unpack _ _). vm_compute. exact I.
    + vm_compute. reflexivity.
    + exists layout, w, h, resized. split; [exact Heq|].
      apply (Hres 0%nat (Opened "a.png" 100 50) (100, 50)); reflexivity.
  - destruct (malformed_rule [Opened "a.png" 100 50] 10) as (_ & _ & Hmore).
    apply (Hmore swapped_rule).
    + simpl. refine (bool_decide_unpack _ _). vm_compute. exact I.
    + simpl. repeat (constructor; [unfold in_grid, span_of; simpl; lia|]).
      constructor.
    + simpl. lia.
    + reflexivity.
    + repeat constructor.
Defined.

(** ** A span that runs past the last column *)

Lemma py_norm_index_lt {A : Type} (l : list A) (i : Z) (n : nat) :
  py_norm_index l i = Ok n -> (n < length l)%nat.
Proof.
  unfold py_norm_index, py_len.
  destruct (Z.leb_spec 0 i), (Z.ltb_spec i (Z.of_nat (length l))),
    (Z.leb_spec (- Z.of_nat (length l)) i), (Z.ltb_spec i 0);
    simpl; intros Hn; try discriminate Hn; injection Hn as <-; lia.
Qed.

Lemma py_getitem_raise {A : Type} (l : list A) (i : Z) (e : exn) :
  py_getitem l i = Raise e -> e = IndexError.
Proof.
  unfold py_getitem.
  destruct (py_norm_index l i) as [n|e'] eqn:Hn; simpl.
  - destruct (l !! n); [discriminate | congruence].
  - unfold py_norm_index in Hn.
    destruct (_ && _) in Hn; [discriminate|].
    destruct (_ && _) in Hn; [discriminate|]. congruence.
Qed.

Lemma py_getitem_Ok_lt {A : Type} (l : list A) (i : Z) (a : A) :
  py_getitem l i = Ok a -> i < py_len l.
Proof.
  intros H. destruct (Z.lt_ge_cases i (py_len l)) as [Hlt|Hge]; [exact Hlt|].
  rewrite py_getitem_ge in H by exact Hge. discriminate H.
Qed.

Lemma map_result_Ok {A B : Type} (f : A -> result B) (xs : list A)
    (ys : list B) :
  map_result f xs = Ok ys -> Forall2 (fun a b => f a = Ok b) xs ys.
Proof.
  revert ys. induction xs as [|a xs IH]; intros ys H; simpl in H.
  - injection H as <-. constructor.
  - destruct (f a) as [b|e] eqn:Hb; simpl in H; [|discriminate].
    destruct (map_result f xs) as [ys'|e]; simpl in H; [|discriminate].
    injection H as <-. constructor; [exact Hb | apply IH; reflexivity].
Qed.

Lemma map_result_Raise {A B : Type} (f : A -> result B) (xs : list A)
    (e : exn) :
  map_result f xs = Raise e -> exists a, a ∈ xs /\ f a = Raise e.
Proof.
  induction xs as [|a xs IH]; intros H; simpl in H; [discriminate|].
  destruct (f a) as [b|e'] eqn:Hb; simpl in H.
  - destruct (map_result f xs) as [ys'|e'']; simpl in H; [discriminate|].
    destruct IH as (a' & Hin & Ha'); [exact H|].
    exists a'. split; [right; exact Hin | exact Ha'].
  - exists a. split; [left | congruence].
Qed.

Lemma py_getitem_elem {A : Type} (l : list A) (i : Z) (a : A) :
  py_getitem l i = Ok a -> a ∈ l.
Proof.
  unfold py_getitem. destruct (py_norm_index l i) as [n|e]; simpl;
    [|discriminate].
  destruct (l !! n) as [b|] eqn:Hb; [|discriminate].
  intros H. injection H as <-. eapply list_elem_of_lookup_2. exact Hb.
Qed.

(** One iteration of the first loop on a config with col >= 1 and
    span >= 1, the spacing and the image widths in range: it raises
    IndexError, or it ends normally, in which case the span lies within
    [col_widths] and both lists keep their lengths. *)
Lemma sizing_step_cases (configs : list config) (imgs : list image) (sp : Z)
    (cfg : config) (cw : list num) (rh : list Z) :
  in_float_range sp ->
  Forall (fun img => in_float_range (fst (size img))) imgs ->
  cfg ∈ configs -> 1 <= cfg_col cfg -> 1 <= span_of cfg ->
  sizing_step configs imgs sp cfg (cw, rh) = Raise IndexError \/
  exists cw' rh',
    sizing_step configs imgs sp cfg (cw, rh) = Ok (cw', rh') /\
    length cw' = length cw /\ length rh' = length rh /\
    col_of cfg + span_of cfg <= py_len cw.
Proof.
  intros Hsp Hw Hin Hcol Hspan. unfold sizing_step.
  destruct (py_index_elem configs cfg Hin) as [i ->]. simpl bind.
  destruct (py_getitem imgs i) as [img|e] eqn:Himg; simpl bind.
  2:{ left. apply py_getitem_raise in Himg as ->. reflexivity. }
  apply py_getitem_elem in Himg.
  rewrite Forall_forall in Hw. specialize (Hw img Himg).
  destruct (scaledWidth_in_range sp cfg (size img) Hspan Hsp Hw) as [f Hf].
  unfold Spec.scaledWidth in Hf. rewrite Hf. simpl bind.
  set (sw := PyFloat f).
  destruct (map_result _ (py_range (col_of cfg) (col_of cfg + span_of cfg)))
    as [new|e] eqn:Hnew; simpl bind.
  2:{ left. apply map_result_Raise in Hnew as (c & _ & Hc).
      destruct (py_getitem cw c) as [cur|e'] eqn:Hcur; simpl in Hc;
        [discriminate|].
      injection Hc as <-. apply py_getitem_raise in Hcur as ->.
      reflexivity. }
  apply map_result_Ok in Hnew.
  assert (Hend : col_of cfg + span_of cfg <= py_len cw).
  { assert (Hlast : py_range (col_of cfg) (col_of cfg + span_of cfg)
                    !! Z.to_nat (span_of cfg - 1)
                    = Some (col_of cfg + (span_of cfg - 1))).
    { rewrite py_range_lookup by lia. f_equal. lia. }
    destruct (Forall2_lookup_l _ _ _ _ _ Hnew Hlast) as (q & _ & Hq).
    destruct (py_getitem cw (col_of cfg + (span_of cfg - 1)))
      as [cur|e] eqn:Hcur; simpl in Hq; [|discriminate].
    apply py_getitem_Ok_lt in Hcur. lia. }
  assert (Hlen : length new = Z.to_nat (span_of cfg)).
  { rewrite <- (Forall2_length _ _ _ Hnew), py_range_length. lia. }
  destruct (py_getitem rh (row_of cfg)) as [cur|e] eqn:Hrow; simpl bind.
  2:{ left. apply py_getitem_raise in Hrow as ->. reflexivity. }
  unfold py_getitem in Hrow. unfold py_setitem.
  destruct (py_norm_index rh (row_of cfg)) as [n|e] eqn:Hn; simpl in Hrow;
    [|discriminate].
  simpl. right. eexists _, _. split; [reflexivity|].
  split; [|split; [apply length_insert | exact Hend]].
  unfold py_setslice. unfold col_of in *. unfold py_len in Hend.
  rewrite !py_clamp_in by (unfold py_len; lia).
  rewrite !length_app, length_take, length_drop, Hlen. lia.
Qed.

Lemma sizing_loop_past_last_column (configs : list config)
    (imgs : list image) (sp n_cols : Z) (cfg : config)
    (todo : list config) (cw : list num) (rh : list Z) :
  in_float_range sp ->
  Forall (fun img => in_float_range (fst (size img))) imgs ->
  Forall (fun c => c ∈ configs /\ 1 <= cfg_col c /\ 1 <= span_of c) todo ->
  cfg ∈ todo -> col_of cfg + span_of cfg > n_cols ->
  length cw = Z.to_nat n_cols ->
  for_each (sizing_step configs imgs sp) todo (cw, rh) = Raise IndexError.
Proof.
  intros Hsp Hw Hall Hin Hpast. revert cw rh.
  induction todo as [|c todo IH]; intros cw rh Hcw; [inversion Hin|].
  apply Forall_cons in Hall as [(Hc & Hcol & Hspan) Hall]. simpl.
  destruct (sizing_step_cases configs imgs sp c cw rh Hsp Hw Hc Hcol Hspan)
    as [->|(cw' & rh' & -> & Hcw' & _ & Hend)]; [reflexivity|].
  simpl. apply elem_of_cons in Hin as [->|Hin].
  - exfalso. unfold py_len in Hend. unfold col_of in *. lia.
  - apply IH; [exact Hall | exact Hin | congruence].
Qed.

(** C9, as stated, fails: with "col" counted from 1, as the rule gives it,
    a config in column 2 of a rule with 2 columns has col + span = 3 > 2,
    and the calculator returns normally. *)
Lemma span_past_last_column_counterexample :
  calculate_layout (RDict swapped_rule) two_images 10
  = (Ok ([{| x := 10; y := 10 |}; {| x := 80; y := 10 |}], 190, 70),
     [Resized (Opened "a.png" 100 50) 100 50;
      Resized (Opened "b.png" 60 40) 60 40]) /\
  images swapped_rule !! 0%nat = Some (Config 1 2 None) /\
  cfg_col (Config 1 2 None) + span_of (Config 1 2 None)
  > columns swapped_rule.
Proof. vm_compute. repeat split; reflexivity. Qed.

(** C9, amended. Explicit mode, with every config having col >= 1 and
    span >= 1 and with a spacing and image widths below 2^1000 in absolute
    value: if the span of some config runs past the last declared column,
    that is col - 1 + span exceeds the number of columns, col counted from
    1 as the rule gives it, then the calculator raises IndexError in its
    first loop: no layout is returned and no image has been replaced. *)
Theorem span_past_last_column (d : layout_dict) (img_objects : list image)
    (S : Z) (cfg : config) :
  Forall (fun c => 1 <= cfg_col c /\ 1 <= span_of c) (images d) ->
  in_float_range S ->
  Forall (fun img => in_float_range (fst (size img))) img_objects ->
  cfg ∈ images d ->
  cfg_col cfg - 1 + span_of cfg > columns d ->
  calculate_layout (RDict d) img_objects S = (Raise IndexError, img_objects).
Proof.
  intros Hall Hsp Hw Hin Hpast. simpl. unfold explicit_layout.
  rewrite (sizing_loop_past_last_column (images d) img_objects S
             (columns d) cfg);
    [reflexivity | exact Hsp | exact Hw | | exact Hin | exact Hpast
     | apply length_replicate].
  apply Forall_forall. intros c Hc. split; [exact Hc|].
  rewrite Forall_forall in Hall. apply Hall, Hc.
Qed.

Lemma span_past_last_column_witness :
  calculate_layout (RDict overlong_span_rule) two_images 10
  = (Raise IndexError, two_images).
Proof.
  apply (span_past_last_column overlong_span_rule two_images 10
           (Config 1 2 (Some 2))).
  - simpl. repeat (constructor; [unfold span_of; simpl; lia|]). constructor.
  - reflexivity.
  - repeat constructor.
  - simpl. right. left.
  - simpl. unfold span_of. simpl. lia.
Defined.

(** ** The caller's list of images after the call *)

Lemma Resized_neq (img : image) (w h : Z) : Resized img w h <> img.
Proof.
  revert w h. induction img as [path w0 h0|src IH w0 h0]; intros w h H.
  - discriminate H.
  - injection H as H _ _. exact (IH _ _ H).
Qed.

(** C10. The int branch leaves [img_objects] as it is, whether it returns
    or raises.  The dict branch, on a valid rule for which the two passes
    are defined and give every image a size of at least 1 x 1, returns
    normally and has replaced every entry of [img_objects] by a resized
    handle of the image that was there, so that a non-empty list is no
    longer the list the caller passed in. *)
Theorem img_objects_after_call (img_objects : list image) (S : Z) :
  (forall n, snd (calculate_layout (RInt n) img_objects S) = img_objects) /\
  (forall d out steps,
     valid_rule d img_objects ->
     Spec.two_passes S d (map size img_objects) = Ok out ->
     Forall positive_size (Spec.newSize out) ->
     Spec.steps S (Spec.colWidth out) = Ok steps ->
     exists layout w h after,
       calculate_layout (RDict d) img_objects S = (Ok (layout, w, h), after) /\
       length after = length img_objects /\
       (forall i img, img_objects !! i = Some img ->
          exists new_w new_h, after !! i = Some (Resized img new_w new_h)) /\
       (img_objects <> [] -> after <> img_objects)).
Proof.
  split; [reflexivity|]. intros d out steps Hvalid Hout Hpos Hsteps.
  simpl calculate_layout.
  pose proof (valid_length _ _ Hvalid) as Hlen.
  rewrite (explicit_layout_in_grid d img_objects S out steps);
    [| apply (valid_distinct _ _ Hvalid)
     | apply (valid_in_grid _ _ Hvalid)
     | rewrite Hlen; reflexivity
     | exact Hout | exact Hpos | exact Hsteps].
  rewrite Hlen, drop_all, app_nil_r.
  apply two_passes_Ok in Hout as (rh1 & _ & Hns & _).
  apply new_sizes_length in Hns. rewrite length_map, Hlen in Hns.
  assert (Hlookup : forall i img, img_objects !! i = Some img ->
            exists new_w new_h,
              Spec.rescaled img_objects (Spec.newSize out) !! i
              = Some (Resized img new_w new_h)).
  { intros i img Himg.
    destruct (lookup_lt_is_Some_2 (Spec.newSize out) i) as [n Hn].
    { rewrite Hns. apply lookup_lt_Some in Himg. lia. }
    unfold Spec.rescaled. rewrite lookup_zip_with, Himg. simpl.
    rewrite Hn. simpl. eauto. }
  do 4 eexists. split; [reflexivity|]. split; [|split].
  - unfold Spec.rescaled. rewrite length_zip_with. lia.
  - exact Hlookup.
  - intros Hne Heq. destruct img_objects as [|img rest]; [congruence|].
    destruct (Hlookup 0%nat img eq_refl) as (new_w & new_h & H0).
    rewrite Heq in H0. simpl in H0. injection H0 as H0.
    symmetry in H0. exact (Resized_neq _ _ _ H0).
Qed.

Lemma img_objects_after_call_witness :
  exists layout w h after,
    calculate_layout (RDict two_row_rule) three_images 10
    = (Ok (layout, w, h), after) /\
    length after = 3%nat /\ after <> three_images.
Proof.
  destruct (img_objects_after_call three_images 10) as [_ Hdict].
  edestruct (Hdict two_row_rule)
    as (layout & w & h & after & Heq & Hlen & _ & Hne).
  - exact two_row_rule_valid.
  - vm_compute. reflexivity.
  - refine (bool_decide_unpack _ _). vm_compute. exact I.
  - vm_compute. reflexivity.
  - exists layout, w, h, after. split; [exact Heq|]. split; [exact Hlen|].
    apply Hne. discriminate.
Defined.

(** * Further properties of the code *)

(** ** resize_images *)

Lemma resize_images_same (imgs : list image) (t : Z * Z) :
  Forall (fun img => size img = t) imgs -> resize_images imgs t = Ok imgs.
Proof.
  unfold resize_images. induction 1 as [|img imgs Himg _ IH];
    [reflexivity|].
  simpl. rewrite decide_True by exact Himg. simpl. rewrite IH. reflexivity.
Qed.

Lemma resize_images_positive (imgs : list image) (t : Z * Z) :
  positive_size t ->
  resize_images imgs t
  = Ok (map (fun img => if decide (size img = t) then img
                        else Resized img (fst t) (snd t)) imgs).
Proof.
  intros Ht. unfold resize_images. induction imgs as [|img imgs IH];
    [reflexivity|].
  simpl. rewrite IH. destruct (decide (size img = t)); [reflexivity|].
  rewrite (resize_positive img t Ht). reflexivity.
Qed.

Lemma resize_images_refused (imgs : list image) (t : Z * Z) :
  ~ positive_size t -> ~ Forall (fun img => size img = t) imgs ->
  resize_images imgs t = Raise ValueError.
Proof.
  intros Ht. unfold resize_images. induction imgs as [|img imgs IH];
    intros Hsome; [exfalso; apply Hsome; constructor|].
  simpl. destruct (decide (size img = t)) as [Heq|Hne].
  - simpl. rewrite IH; [reflexivity|].
    intros Hall. apply Hsome. constructor; assumption.
  - unfold resize. rewrite decide_False by exact Hne.
    unfold positive_size in Ht.
    destruct (Z.ltb_spec (fst t) 1); [reflexivity|].
    destruct (Z.ltb_spec (snd t) 1); [reflexivity | lia].
Qed.

(** X1. resize_images.  A list whose images all have the target size is
    returned as it is, for any target.  For a target of at least 1 x 1 the
    call returns one image per input image, each of the target size: an
    image that already has it is the same handle, any other is a resized
    handle of it, so that resizing the result again changes nothing.  For a
    target with a side below 1 the call raises ValueError as soon as one
    image has another size. *)
Theorem resize_images_target (imgs : list image) (target_size : Z * Z) :
  (Forall (fun img => size img = target_size) imgs ->
   resize_images imgs target_size = Ok imgs) /\
  (positive_size target_size ->
   exists out,
     resize_images imgs target_size = Ok out /\
     length out = length imgs /\
     Forall (fun img => size img = target_size) out /\
     (forall i img, imgs !! i = Some img ->
        out !! i
        = Some (if decide (size img = target_size) then img
                else Resized img (fst target_size) (snd target_size))) /\
     resize_images out target_size = Ok out) /\
  (~ positive_size target_size ->
   ~ Forall (fun img => size img = target_size) imgs ->
   resize_images imgs target_size = Raise ValueError).
Proof.
  split; [apply resize_images_same|]. split; [|apply resize_images_refused].
  intros Ht. rewrite (resize_images_positive imgs target_size Ht).
  eexists. split; [reflexivity|].
  assert (Hall : Forall (fun img => size img = target_size)
                   (map (fun img =>
                           if decide (size img = target_size) then img
                           else Resized img (fst target_size)
                                  (snd target_size)) imgs)).
  { apply Forall_fmap, Forall_forall. intros img _. simpl.
    destruct (decide (size img = target_size)) as [H|H]; [exact H|].
    destruct target_size; reflexivity. }
  split; [apply length_map|]. split; [exact Hall|]. split.
  - intros i img Hi. rewrite list_lookup_fmap, Hi. reflexivity.
  - apply resize_images_same, Hall.
Qed.

(** ** The int branch for every column count *)

Lemma binary_round_aux_sign (s : bool) (m e : Z) (l : location) :
  match binary_round_aux prec emax s m e l with
  | S754_finite s' _ _ => s' = s
  | _ => True
  end.
Proof.
  unfold binary_round_aux.
  destruct (shr_fexp prec emax m e l) as [mrs1 e1].
  destruct (shr_fexp prec emax _ e1 loc_Exact) as [mrs2 e2].
  destruct (shr_m mrs2); try exact I.
  destruct (e2 <=? emax - prec); [reflexivity | exact I].
Qed.

(** [math.ceil(n / c)] for a negative [c] and a positive [n]. *)
Lemma math_ceil_truediv_neg (n c : Z) :
  0 < n < 2 ^ 1000 -> c < 0 ->
  exists z, (q <- py_truediv (PyInt n) (PyInt c) ;; math_ceil q) = Ok z /\
            z <= 0.
Proof.
  intros Hn Hc. unfold py_truediv.
  destruct (Z.eqb_spec c 0) as [?|_]; [lia|].
  pose proof (SFdiv_ints_finite n c ltac:(lia) ltac:(lia)) as Hfin.
  destruct n as [|pn|pn]; try lia. destruct c as [|pc|pc]; try lia.
  unfold Z2SF in *. rewrite SFdiv_ints in *. simpl xorb in *.
  match goal with
  | |- context [binary_round_aux prec emax true ?m ?e ?l] =>
      pose proof (binary_round_aux_sign true m e l) as Hsign;
      destruct (binary_round_aux prec emax true m e l) as [s|s| |s m' e']
  end; simpl in Hfin; try contradiction.
  - exists 0. split; [reflexivity | lia].
  - subst s. simpl bind. unfold math_ceil.
    destruct (Z.leb_spec 0 e') as [He|He].
    + eexists. split; [reflexivity|].
      assert (0 < 2 ^ e') by (apply Z.pow_pos_nonneg; lia). nia.
    + eexists. split; [reflexivity|].
      assert (0 <= Z.pos m' / 2 ^ (- e'))
        by (apply Z.div_pos; [lia | apply Z.pow_pos_nonneg; lia]).
      lia.
Qed.

Lemma grid_cells_no_row (n_rows n_cols cw ch s : Z) :
  n_rows <= 0 -> grid_cells n_rows n_cols cw ch s = [].
Proof.
  intros H. unfold grid_cells, py_range.
  replace (Z.to_nat (n_rows - 0)) with 0%nat by lia. reflexivity.
Qed.

(** X2. The grid path on a non-empty list of N < 2^53 images returns
    normally for every column count n < 2^53 and every spacing, and leaves
    the images as they are.  The layout has ceil(N/n)*n entries for n > 0,
    N entries for n = 0, and none for n < 0. *)
Theorem grid_layout_total (img_objects : list image) (n S : Z) :
  img_objects <> [] -> py_len img_objects < 2 ^ 53 -> n < 2 ^ 53 ->
  exists layout w h,
    calculate_layout (RInt n) img_objects S
    = (Ok (layout, w, h), img_objects) /\
    py_len layout
    = (if 0 <? n then (py_len img_objects + n - 1) / n * n
       else if n =? 0 then py_len img_objects
       else 0).
Proof.
  intros Hne HN53 Hn53. pose proof (py_len_pos img_objects Hne) as HN.
  simpl.
  destruct (Z.ltb_spec 0 n) as [Hpos|Hle];
    [|destruct (Z.eqb_spec n 0) as [->|Hn]].
  - rewrite (grid_layout_nonempty img_objects n S
               ((py_len img_objects + n - 1) / n) Hne).
    2:{ destruct (Z.eqb_spec n 0) as [?|_]; [lia|].
        apply math_ceil_truediv; lia. }
    do 3 eexists. split; [reflexivity|].
    destruct (Z.eqb_spec n 0) as [?|_]; [lia|].
    unfold py_len at 1. rewrite grid_cells_length.
    assert (0 <= (py_len img_objects + n - 1) / n)
      by (apply Z.div_pos; lia).
    lia.
  - rewrite (grid_layout_nonempty img_objects 0 S 1 Hne) by reflexivity.
    do 3 eexists. split; [reflexivity|].
    simpl Z.eqb. cbv iota. unfold py_len at 1. rewrite grid_cells_length.
    lia.
  - destruct (math_ceil_truediv_neg (py_len img_objects) n)
      as (z & Hz & Hz0); [lia | lia |].
    rewrite (grid_layout_nonempty img_objects n S z Hne).
    2:{ destruct (Z.eqb_spec n 0) as [?|_]; [lia | exact Hz]. }
    do 3 eexists. split; [reflexivity|].
    rewrite grid_cells_no_row by exact Hz0. reflexivity.
Qed.

Lemma grid_layout_total_witness :
  exists layout w h,
    calculate_layout (RInt (-2)) square_and_oblong 10
    = (Ok (layout, w, h), square_and_oblong) /\
    py_len layout = 0.
Proof.
  apply (grid_layout_total square_and_oblong (-2) 10);
    [discriminate | reflexivity | reflexivity].
Defined.

(** ** create_collage on a grid rule *)

Lemma py_enumerate_lookup {A : Type} (l : list A) (i : nat) :
  py_enumerate l !! i = (fun a => (Z.of_nat i, a)) <$> l !! i.
Proof. unfold py_enumerate. rewrite list_lookup_imap. reflexivity. Qed.

Lemma length_py_enumerate {A : Type} (l : list A) :
  length (py_enumerate l) = length l.
Proof. unfold py_enumerate. apply length_imap. Qed.

(** The paste loop when the layout has an entry for every image. *)
Lemma paste_loop_ok (layout : list position) (imgs : list image) :
  (length imgs <= length layout)%nat ->
  map_result (fun ia => p <- py_getitem layout (fst ia) ;; Ok (snd ia, p))
    (py_enumerate imgs)
  = Ok (zip imgs (take (length imgs) layout)).
Proof.
  intros Hlen. apply map_result_Forall2, Forall2_same_length_lookup_2.
  - rewrite length_py_enumerate, length_zip_with_l; [reflexivity|].
    rewrite length_take. lia.
  - intros i [k img] [img' p] Hi Hp.
    rewrite py_enumerate_lookup in Hi.
    destruct (imgs !! i) as [a|] eqn:Ha; simpl in Hi; [|discriminate].
    injection Hi as <- <-.
    apply lookup_zip_with_Some in Hp as (a' & p' & Heq & Ha' & Hp').
    injection Heq as -> ->. rewrite Ha in Ha'. injection Ha' as <-.
    simpl. apply lookup_lt_Some in Ha as Hlt.
    rewrite lookup_take_lt in Hp' by exact Hlt.
    rewrite (py_getitem_lookup layout _ p');
      [reflexivity | lia | rewrite Nat2Z.id; exact Hp'].
Qed.

(** The paste loop when the layout is too short: [layout[index]] raises at
    the first image without an entry. *)
Lemma paste_loop_short (layout : list position) (imgs : list image) :
  (length layout < length imgs)%nat ->
  map_result (fun ia => p <- py_getitem layout (fst ia) ;; Ok (snd ia, p))
    (py_enumerate imgs)
  = Raise IndexError.
Proof.
  intros Hlen.
  destruct (map_result _ (py_enumerate imgs)) as [pasted|e] eqn:Hres.
  - exfalso. apply map_result_Ok in Hres.
    destruct (lookup_lt_is_Some_2 imgs (length layout) Hlen) as [img Himg].
    assert (Hi : py_enumerate imgs !! length layout
                 = Some (Z.of_nat (length layout), img)).
    { rewrite py_enumerate_lookup, Himg. reflexivity. }
    destruct (Forall2_lookup_l _ _ _ _ _ Hres Hi) as (ip & _ & Hip).
    simpl in Hip. rewrite py_getitem_ge in Hip by (unfold py_len; lia).
    discriminate Hip.
  - apply map_result_Raise in Hres as ([k img] & _ & Hk). simpl in Hk.
    destruct (py_getitem layout k) as [p|e'] eqn:Hp; simpl in Hk;
      [discriminate|].
    injection Hk as <-. apply py_getitem_raise in Hp as ->. reflexivity.
Qed.

Lemma create_collage_nonempty (img_objects : list image) (sp : Z)
    (r : rule) :
  img_objects <> [] ->
  create_collage img_objects sp r
  = match calculate_layout r img_objects sp with
    | (Raise e, _) => Raise e
    | (Ok (layout, collage_w, collage_h), img_objects') =>
        _ <- Image_new (collage_w, collage_h) ;;
        pasted <- map_result
                    (fun ia => p <- py_getitem layout (fst ia) ;;
                               Ok (snd ia, p))
                    (py_enumerate img_objects') ;;
        Ok (pasted, (collage_w, collage_h))
    end.
Proof. intros H. destruct img_objects; [congruence | reflexivity]. Qed.

Lemma Image_new_Ok (w h : Z) : 0 <= w -> 0 <= h -> Image_new (w, h) = Ok tt.
Proof.
  intros Hw Hh. unfold Image_new. simpl.
  destruct (Z.ltb_spec w 0); [lia|]. destruct (Z.ltb_spec h 0); [lia|].
  reflexivity.
Qed.

Lemma Image_new_negative (w h : Z) :
  w < 0 \/ h < 0 -> Image_new (w, h) = Raise ValueError.
Proof.
  intros H. unfold Image_new. simpl.
  destruct (Z.ltb_spec w 0); [reflexivity|].
  destruct (Z.ltb_spec h 0); [reflexivity | lia].
Qed.

Lemma py_sum_ge (l : list Z) (b : Z) :
  Forall (fun z => b <= z) l -> b * py_len l <= py_sum l.
Proof.
  induction 1 as [|z l Hz _ IH]; [unfold py_len, py_sum; simpl; lia|].
  rewrite py_sum_cons. unfold py_len in *. simpl length. lia.
Qed.

(** The floor averages of sides that are at least 1 are at least 1. *)
Lemma cell_sides_positive (img_objects : list image) :
  img_objects <> [] ->
  Forall (fun img => positive_size (size img)) img_objects ->
  1 <= cell_width img_objects /\ 1 <= cell_height img_objects.
Proof.
  intros Hne Hpos. pose proof (py_len_pos img_objects Hne) as HN.
  assert (Hlen : py_len (map size img_objects) = py_len img_objects)
    by (unfold py_len; rewrite length_map; reflexivity).
  unfold cell_width, cell_height. split.
  - apply Z.div_le_lower_bound; [exact HN|].
    pose proof (py_sum_ge (map fst (map size img_objects)) 1) as H.
    unfold py_len in H. rewrite !length_map in H. unfold py_len.
    rewrite Z.mul_1_r. rewrite Z.mul_1_l in H. apply H.
    apply Forall_fmap, Forall_fmap. eapply Forall_impl; [exact Hpos|].
    intros img [Hw _]. exact Hw.
  - apply Z.div_le_lower_bound; [exact HN|].
    pose proof (py_sum_ge (map snd (map size img_objects)) 1) as H.
    unfold py_len in H. rewrite !length_map in H. unfold py_len.
    rewrite Z.mul_1_r. rewrite Z.mul_1_l in H. apply H.
    apply Forall_fmap, Forall_fmap. eapply Forall_impl; [exact Hpos|].
    intros img [_ Hh]. exact Hh.
Qed.

(** X3. The part of create_collage that follows the opening of the images,
    on a non-empty list of N < 2^53 images with sides of at least 1, a grid
    rule of 0 <= n < 2^53 columns and a spacing S >= 0: the canvas is
    accepted and every image is pasted, unresized and in input order,
    image i at (S + (i mod cols)*(cellWidth+S),
    S + (i div cols)*(cellHeight+S)), where cols is n, or the number of
    images when n = 0. *)
Theorem create_collage_grid (img_objects : list image) (n S : Z) :
  img_objects <> [] -> py_len img_objects < 2 ^ 53 -> 0 <= n < 2 ^ 53 ->
  0 <= S -> Forall (fun img => positive_size (size img)) img_objects ->
  let cols := if n =? 0 then py_len img_objects else n in
  exists pasted canvas,
    create_collage img_objects S (RInt n) = Ok (pasted, canvas) /\
    length pasted = length img_objects /\
    forall (i : nat) img, img_objects !! i = Some img ->
      pasted !! i
      = Some (img,
              {| x := S + (Z.of_nat i mod cols) * (cell_width img_objects + S);
                 y := S + (Z.of_nat i / cols)
                          * (cell_height img_objects + S) |}).
Proof.
  intros Hne HN53 Hn HS Hpos cols.
  pose proof (py_len_pos img_objects Hne) as HN.
  destruct (cell_sides_positive img_objects Hne Hpos) as [Hcw Hch].
  assert (Hcols : 0 < cols).
  { unfold cols. destruct (Z.eqb_spec n 0); lia. }
  set (n_rows := if n =? 0 then 1 else (py_len img_objects + n - 1) / n).
  assert (Hrows : py_len img_objects <= n_rows * cols).
  { unfold n_rows, cols. destruct (Z.eqb_spec n 0) as [->|Hn0]; [lia|].
    pose proof (ceil_div_bounds (py_len img_objects) n ltac:(lia)). lia. }
  assert (H0 : 1 <= n_rows) by nia.
  rewrite create_collage_nonempty by exact Hne.
  simpl calculate_layout.
  rewrite (grid_layout_nonempty img_objects n S n_rows Hne).
  2:{ unfold n_rows. destruct (Z.eqb_spec n 0) as [?|Hn0]; [reflexivity|].
      apply math_ceil_truediv; lia. }
  fold cols.
  set (layout := grid_cells n_rows cols _ _ S).
  assert (Hlen : (length img_objects <= length layout)%nat).
  { unfold layout. rewrite grid_cells_length. unfold py_len in Hrows. nia. }
  rewrite Image_new_Ok by nia. simpl bind.
  rewrite paste_loop_ok by exact Hlen. simpl.
  do 2 eexists. split; [reflexivity|]. split.
  - apply length_zip_with_l. rewrite length_take. lia.
  - intros i img Hi. apply lookup_lt_Some in Hi as Hlt.
    rewrite lookup_zip_with, Hi. simpl.
    rewrite lookup_take_lt by exact Hlt.
    rewrite <- (Nat2Z.id i). unfold layout.
    rewrite grid_cells_lookup by (unfold py_len in Hrows; lia).
    rewrite Nat2Z.id. reflexivity.
Qed.

Lemma create_collage_grid_witness :
  exists pasted canvas,
    create_collage square_and_oblong 10 (RInt 2) = Ok (pasted, canvas) /\
    pasted !! 2%nat
    = Some (Opened "c.png" 100 200, {| x := 10; y := 153 |}).
Proof.
  destruct (create_collage_grid square_and_oblong 2 10)
    as (pasted & canvas & Heq & _ & Hpos);
    [discriminate | reflexivity | split; [lia | reflexivity] | lia | |].
  - refine (bool_decide_unpack _ _). vm_compute. exact I.
  - exists pasted, canvas. split; [exact Heq|].
    apply (Hpos 2%nat (Opened "c.png" 100 200)). reflexivity.
Defined.

(** X4. With a negative column count n, on a non-empty list of N < 2^53
    images with sides of at least 1 and with a spacing S >= 0, the
    calculator returns, without complaint, an empty layout and a canvas of
    negative width n*cellWidth + (n+1)*S; create_collage then raises
    ValueError when it asks Pillow for that canvas, before any image is
    pasted. *)
Theorem create_collage_negative_columns (img_objects : list image)
    (n S : Z) :
  img_objects <> [] -> py_len img_objects < 2 ^ 53 -> n < 0 -> 0 <= S ->
  Forall (fun img => positive_size (size img)) img_objects ->
  (exists h,
     calculate_layout (RInt n) img_objects S
     = (Ok ([], n * cell_width img_objects + (n + 1) * S, h),
        img_objects)) /\
  n * cell_width img_objects + (n + 1) * S < 0 /\
  create_collage img_objects S (RInt n) = Raise ValueError.
Proof.
  intros Hne HN53 Hn HS Hpos. pose proof (py_len_pos img_objects Hne) as HN.
  destruct (cell_sides_positive img_objects Hne Hpos) as [Hcw _].
  destruct (math_ceil_truediv_neg (py_len img_objects) n)
    as (z & Hz & Hz0); [lia | lia |].
  assert (Hneg : n * cell_width img_objects + (n + 1) * S < 0) by nia.
  assert (Hlayout : exists h,
            calculate_layout (RInt n) img_objects S
            = (Ok ([], n * cell_width img_objects + (n + 1) * S, h),
               img_objects)).
  { simpl. rewrite (grid_layout_nonempty img_objects n S z Hne).
    2:{ destruct (Z.eqb_spec n 0) as [?|_]; [lia | exact Hz]. }
    destruct (Z.eqb_spec n 0) as [?|_]; [lia|].
    rewrite grid_cells_no_row by exact Hz0.
    replace (n * cell_width img_objects + (n + 1) * S)
      with (n * cell_width img_objects + (n - 1) * S + 2 * S) by lia.
    eexists. reflexivity. }
  split; [exact Hlayout|]. split; [exact Hneg|].
  destruct Hlayout as (h & Heq).
  rewrite create_collage_nonempty, Heq by exact Hne.
  rewrite Image_new_negative by (left; exact Hneg). reflexivity.
Qed.

Lemma create_collage_negative_columns_witness :
  create_collage square_and_oblong 10 (RInt (-2)) = Raise ValueError.
Proof.
  apply (create_collage_negative_columns square_and_oblong (-2) 10);
    [discriminate | reflexivity | lia | lia |].
  refine (bool_decide_unpack _ _). vm_compute. exact I.
Defined.

(** ** The placements of explicit mode *)

(** X5. Explicit mode on a valid rule for which the two passes are defined
    and give every image a size of at least 1 x 1: the layout lists the
    cells that some config names, in row-major order of the declared grid,
    one position per cell.  The position of the cell in row r and column c
    (from 0) is x = S + the sum of trunc(colWidth[j] + S) over the columns
    j < c and y = S + the sum of rowHeight[j] + S over the rows j < r, with
    the column widths of pass 1 and the row heights after pass 2. *)
Theorem layout_in_scan_order (d : layout_dict) (img_objects : list image)
    (S : Z) (out : Spec.outcome) (steps : list Z) :
  valid_rule d img_objects ->
  Spec.two_passes S d (map size img_objects) = Ok out ->
  Forall positive_size (Spec.newSize out) ->
  Spec.steps S (Spec.colWidth out) = Ok steps ->
  exists w h after,
    calculate_layout (RDict d) img_objects S
    = (Ok (map (cell_position steps (Spec.rowHeight out) S)
             (filter (claimed (images d))
                (grid_scan 0 (rows d) (columns d))),
           w, h),
       after).
Proof.
  intros Hvalid Hout Hpos Hsteps. simpl calculate_layout.
  rewrite (explicit_layout_in_grid d img_objects S out steps);
    [| apply (valid_distinct _ _ Hvalid)
     | apply (valid_in_grid _ _ Hvalid)
     | rewrite (valid_length _ _ Hvalid); reflexivity
     | exact Hout | exact Hpos | exact Hsteps].
  do 3 eexists. reflexivity.
Qed.

Lemma layout_in_scan_order_witness :
  exists w h after,
    calculate_layout (RDict swapped_rule) two_images 10
    = (Ok ([{| x := 10; y := 10 |}; {| x := 80; y := 10 |}], w, h), after).
Proof.
  assert (Hvalid : valid_rule swapped_rule two_images).
  { split.
    - reflexivity.
    - simpl. repeat (constructor; [unfold in_grid, span_of; simpl; lia|]).
      constructor.
    - simpl. refine (bool_decide_unpack _ _). vm_compute. exact I.
    - repeat (constructor; [simpl; lia|]). constructor. }
  edestruct (layout_in_scan_order swapped_rule two_images 10)
    as (w & h & after & H).
  - exact Hvalid.
  - vm_compute. reflexivity.
  - refine (bool_decide_unpack _ _). vm_compute. exact I.
  - vm_compute. reflexivity.
  - exists w, h, after. exact H.
Defined.

(** ** Rules that list their configs in scan order *)

Lemma StronglySorted_filter {A : Type} (R : relation A) (P : A -> Prop)
    `{forall a, Decision (P a)} (l : list A) :
  StronglySorted R l -> StronglySorted R (filter P l).
Proof.
  induction 1 as [|a l Hl IH Ha]; [constructor|].
  rewrite filter_cons. destruct (decide (P a)); [|exact IH].
  constructor; [exact IH|].
  apply Forall_forall. intros b Hb. apply list_elem_of_filter in Hb as [_ Hb].
  rewrite Forall_forall in Ha. apply Ha, Hb.
Qed.

Lemma StronglySorted_NoDup {A : Type} (R : relation A) (l : list A) :
  (forall a, ~ R a a) -> StronglySorted R l -> NoDup l.
Proof.
  intros Hirr. induction 1 as [|a l Hl IH Ha]; constructor; [|exact IH].
  intros Hin. rewrite Forall_forall in Ha. exact (Hirr a (Ha a Hin)).
Qed.

Lemma StronglySorted_seqZ (m : Z) (k : nat) :
  StronglySorted Z.lt (seqZ m (Z.of_nat k)).
Proof.
  revert m. induction k as [|k IH]; intros m; [constructor|].
  rewrite seqZ_cons by lia.
  replace (Z.pred (Z.of_nat (S k))) with (Z.of_nat k) by lia.
  constructor; [apply IH|].
  apply Forall_forall. intros j Hj. apply elem_of_seqZ in Hj. lia.
Qed.

Lemma elem_of_grid_scan_from (r0 n_rows n_cols r c : Z) :
  (r, c) ∈ grid_scan r0 n_rows n_cols
  <-> r0 <= r < r0 + n_rows /\ 0 <= c < n_cols.
Proof.
  unfold grid_scan. rewrite list_elem_of_bind. split.
  - intros (r' & Hc & Hr). apply list_elem_of_fmap in Hc as (c' & Heq & Hc).
    injection Heq as -> ->. apply elem_of_seqZ in Hc, Hr. lia.
  - intros [Hr Hc]. exists r. split.
    + apply list_elem_of_fmap. exists c. split; [reflexivity|].
      apply elem_of_seqZ. lia.
    + apply elem_of_seqZ. lia.
Qed.

Lemma StronglySorted_grid_scan_nat (k : nat) (r0 n_cols : Z) :
  StronglySorted scan_before (grid_scan r0 (Z.of_nat k) n_cols).
Proof.
  revert r0. induction k as [|k IH]; intros r0; [constructor|].
  unfold grid_scan. rewrite (seqZ_cons r0) by lia.
  replace (Z.pred (Z.of_nat (S k))) with (Z.of_nat k) by lia.
  rewrite bind_cons. apply StronglySorted_app_2.
  - intros [r1 c1] [r2 c2] H1 H2.
    apply list_elem_of_fmap in H1 as (c & Heq & _). injection Heq as -> ->.
    apply (elem_of_grid_scan_from (Z.succ r0)) in H2.
    left. simpl. lia.
  - assert (Hcols : seqZ 0 n_cols = seqZ 0 (Z.of_nat (Z.to_nat n_cols))).
    { unfold seqZ. rewrite Nat2Z.id. reflexivity. }
    rewrite Hcols.
    apply (StronglySorted_fmap _ Z.lt); [|apply StronglySorted_seqZ].
    intros a b Hab. right. simpl. lia.
  - apply IH.
Qed.

Lemma StronglySorted_grid_scan (r0 n_rows n_cols : Z) :
  StronglySorted scan_before (grid_scan r0 n_rows n_cols).
Proof.
  assert (H : grid_scan r0 n_rows n_cols
              = grid_scan r0 (Z.of_nat (Z.to_nat n_rows)) n_cols).
  { unfold grid_scan, seqZ. rewrite Nat2Z.id. reflexivity. }
  rewrite H. apply StronglySorted_grid_scan_nat.
Qed.

Lemma scan_before_irrefl (a : Z * Z) : ~ scan_before a a.
Proof. unfold scan_before. lia. Qed.

(** When the configs are listed in scan order, the scan meets their cells
    in the order of the list. *)
Lemma claimed_cells_in_order (configs : list config) (n_rows n_cols : Z) :
  StronglySorted scan_before (cell_of <$> configs) ->
  Forall (fun cfg => 0 <= row_of cfg < n_rows /\ 0 <= col_of cfg < n_cols)
    configs ->
  filter (claimed configs) (grid_scan 0 n_rows n_cols) = cell_of <$> configs.
Proof.
  intros Hsorted Hin. apply (StronglySorted_unique_strong scan_before).
  - intros a b _ _ Hab Hba. unfold scan_before in *.
    destruct a, b. simpl in *. f_equal; lia.
  - apply StronglySorted_filter, StronglySorted_grid_scan.
  - exact Hsorted.
  - apply NoDup_Permutation.
    + apply NoDup_filter, NoDup_grid_scan.
    + exact (StronglySorted_NoDup _ _ scan_before_irrefl Hsorted).
    + intros [r c]. rewrite list_elem_of_filter. unfold claimed. simpl.
      rewrite cell_claimed_spec, elem_of_grid_scan. split; [tauto|].
      intros Hrc. split; [exact Hrc|].
      apply list_elem_of_fmap in Hrc as (cfg & Heq & Hcfg).
      rewrite Forall_forall in Hin. specialize (Hin cfg Hcfg).
      unfold cell_of in Heq. injection Heq as -> ->. exact Hin.
Qed.

(** X6. The part of create_collage that follows the opening of the images,
    on a valid rule whose configs are listed in scan order (by row, then by
    column), when the two passes are defined, give every image a size of
    at least 1 x 1 and give a canvas without a negative side: it pastes
    image i, rescaled by pass 2, at the position of the cell that config i
    names. *)
Theorem create_collage_in_scan_order (d : layout_dict)
    (img_objects : list image) (S : Z) (out : Spec.outcome)
    (steps : list Z) :
  img_objects <> [] -> valid_rule d img_objects ->
  StronglySorted scan_before (cell_of <$> images d) ->
  Spec.two_passes S d (map size img_objects) = Ok out ->
  Forall positive_size (Spec.newSize out) ->
  Spec.steps S (Spec.colWidth out) = Ok steps ->
  0 <= fst (Spec.canvasSize out) -> 0 <= snd (Spec.canvasSize out) ->
  exists pasted,
    create_collage img_objects S (RDict d)
    = Ok (pasted, Spec.canvasSize out) /\
    length pasted = length img_objects /\
    forall (i : nat) cfg img n,
      images d !! i = Some cfg -> img_objects !! i = Some img ->
      Spec.newSize out !! i = Some n ->
      pasted !! i
      = Some (Resized img (fst n) (snd n),
              cell_position steps (Spec.rowHeight out) S (cell_of cfg)).
Proof.
  intros Hne Hvalid Hsorted Hout Hpos Hsteps Hw Hh.
  pose proof (valid_length _ _ Hvalid) as Hlen.
  rewrite create_collage_nonempty by exact Hne. simpl calculate_layout.
  rewrite (explicit_layout_in_grid d img_objects S out steps);
    [| apply (valid_distinct _ _ Hvalid)
     | apply (valid_in_grid _ _ Hvalid)
     | rewrite Hlen; reflexivity
     | exact Hout | exact Hpos | exact Hsteps].
  rewrite claimed_cells_in_order;
    [| exact Hsorted | apply in_grid_cell, (valid_in_grid _ _ Hvalid)].
  rewrite Hlen, drop_all, app_nil_r.
  rewrite Image_new_Ok by assumption. simpl bind.
  apply two_passes_Ok in Hout as (rh1 & _ & Hns & _).
  apply new_sizes_length in Hns. rewrite length_map, Hlen in Hns.
  assert (Hres : length (Spec.rescaled img_objects (Spec.newSize out))
                 = length img_objects).
  { unfold Spec.rescaled. rewrite length_zip_with. lia. }
  rewrite paste_loop_ok
    by (rewrite Hres, length_map, length_fmap, Hlen; reflexivity).
  simpl bind. rewrite take_ge
    by (rewrite Hres, length_map, length_fmap, Hlen; reflexivity).
  destruct (Spec.canvasSize out) as [cw ch]. simpl fst. simpl snd.
  eexists. split; [reflexivity|]. split.
  - rewrite length_zip_with, Hres, length_map, length_fmap. lia.
  - intros i cfg img n Hcfg Himg Hn.
    rewrite lookup_zip_with. unfold Spec.rescaled.
    rewrite lookup_zip_with, Himg. simpl. rewrite Hn. simpl.
    rewrite list_lookup_fmap, list_lookup_fmap, Hcfg. reflexivity.
Qed.

Lemma create_collage_in_scan_order_witness :
  exists pasted canvas,
    create_collage three_images 10 (RDict two_row_rule)
    = Ok (pasted, canvas) /\
    pasted !! 2%nat
    = Some (Resized (Opened "c.png" 40 40) 55 55, {| x := 80; y := 82 |}).
Proof.
  assert (Hsorted : StronglySorted scan_before
                      (cell_of <$> images two_row_rule)).
  { simpl. repeat (constructor; [|repeat constructor;
                                   unfold scan_before; simpl; lia]).
    constructor. }
  edestruct (create_collage_in_scan_order two_row_rule three_images 10)
    as (pasted & Heq & _ & Hpos).
  - discriminate.
  - exact two_row_rule_valid.
  - exact Hsorted.
  - vm_compute. reflexivity.
  - refine (bool_decide_unpack _ _). vm_compute. exact I.
  - vm_compute. reflexivity.
  - simpl. lia.
  - simpl. lia.
  - exists pasted, (145, 147). split; [exact Heq|].
    exact (Hpos 2%nat (Config 2 2 None) (Opened "c.png" 40 40) (55, 55)
             eq_refl eq_refl eq_refl).
Defined.

(** ** Fewer placements than images *)

(** The scan emits at most one position per config, and exactly that many
    only when no two configs name the same cell. *)
Lemma claimed_cells_at_most (configs : list config) (n_rows n_cols : Z) :
  (length (filter (claimed configs) (grid_scan 0 n_rows n_cols))
   <= length configs)%nat /\
  (length (filter (claimed configs) (grid_scan 0 n_rows n_cols))
   = length configs -> NoDup (cell_of <$> configs)).
Proof.
  set (l1 := filter (claimed configs) (grid_scan 0 n_rows n_cols)).
  assert (Hsub : l1 ⊆+ cell_of <$> configs).
  { apply NoDup_submseteq.
    - apply NoDup_filter, NoDup_grid_scan.
    - intros [r c] Hin. apply list_elem_of_filter in Hin as [Hin _].
      unfold claimed in Hin. simpl in Hin.
      apply cell_claimed_spec. exact Hin. }
  pose proof (submseteq_length _ _ Hsub) as Hle.
  rewrite length_fmap in Hle. split; [exact Hle|].
  intros Heq. rewrite <- (submseteq_length_Permutation _ _ Hsub).
  - apply NoDup_filter, NoDup_grid_scan.
  - rewrite length_fmap. fold l1. lia.
Qed.

(** X9. The part of create_collage that follows the opening of the images,
    with a dict rule whose configs are pairwise distinct and in the grid,
    given at least one image per config, when the two passes are defined,
    give every image a size of at least 1 x 1 and give a canvas without a
    negative side: if there are more images than configs, or two configs
    name the same cell, the calculator returns normally with fewer
    positions than images, and create_collage then raises IndexError when
    it looks up the position of the first image left without one. *)
Theorem create_collage_too_few_cells (d : layout_dict)
    (img_objects : list image) (S : Z) (out : Spec.outcome)
    (steps : list Z) :
  NoDup (images d) -> Forall (in_grid d) (images d) ->
  (length (images d) <= length img_objects)%nat ->
  (length (images d) < length img_objects)%nat
  \/ ~ NoDup (cell_of <$> images d) ->
  Spec.two_passes S d (map size img_objects) = Ok out ->
  Forall positive_size (Spec.newSize out) ->
  Spec.steps S (Spec.colWidth out) = Ok steps ->
  0 <= fst (Spec.canvasSize out) -> 0 <= snd (Spec.canvasSize out) ->
  (exists layout w h after,
     calculate_layout (RDict d) img_objects S = (Ok (layout, w, h), after) /\
     (length layout < length img_objects)%nat) /\
  create_collage img_objects S (RDict d) = Raise IndexError.
Proof.
  intros Hnd Hgrid Hlen Hfew Hout Hpos Hsteps Hcw Hch.
  destruct (claimed_cells_at_most (images d) (rows d) (columns d))
    as [Hle Heq].
  set (cells := filter (claimed (images d))
                  (grid_scan 0 (rows d) (columns d))) in *.
  assert (Hshort : (length cells < length img_objects)%nat).
  { destruct Hfew as [Hlt|Hdup]; [lia|].
    destruct (decide (length cells = length (images d))) as [E|E];
      [exfalso; exact (Hdup (Heq E)) | lia]. }
  assert (Hne : img_objects <> []).
  { intros ->. simpl in Hshort. lia. }
  assert (Hcalc := explicit_layout_in_grid d img_objects S out steps
                     Hnd Hgrid Hlen Hout Hpos Hsteps).
  fold cells in Hcalc. split.
  - simpl calculate_layout. rewrite Hcalc. do 4 eexists.
    split; [reflexivity|]. rewrite length_map. exact Hshort.
  - rewrite create_collage_nonempty by exact Hne.
    simpl calculate_layout. rewrite Hcalc.
    rewrite Image_new_Ok by assumption. simpl bind.
    rewrite paste_loop_short; [reflexivity|].
    apply two_passes_Ok in Hout as (rh1 & _ & Hns & _).
    apply new_sizes_length in Hns. rewrite length_map in Hns.
    rewrite length_map, length_app, length_drop.
    unfold Spec.rescaled. rewrite length_zip_with. lia.
Qed.

Lemma create_collage_too_few_cells_witness :
  create_collage two_images 10 (RDict shared_cell_rule) = Raise IndexError.
Proof.
  eapply (create_collage_too_few_cells shared_cell_rule two_images 10).
  - simpl. refine (bool_decide_unpack _ _). vm_compute. exact I.
  - simpl. repeat (constructor; [unfold in_grid, span_of; simpl; lia|]).
    constructor.
  - simpl. lia.
  - right. simpl. intros H. apply NoDup_cons in H as [H _].
    apply H. left.
  - vm_compute. reflexivity.
  - refine (bool_decide_unpack _ _). vm_compute. exact I.
  - vm_compute. reflexivity.
  - simpl. lia.
  - simpl. lia.
Defined.

(** ** Other rules the first loop rejects *)

(** X10. A config whose span is 0, when the configs are pairwise distinct,
    the ones before it lie in the grid, it has an image, and the spacing
    and the image widths are below 2^1000 in absolute value: the
    calculator raises ZeroDivisionError in its first loop, and no image has
    been replaced. *)
Theorem zero_span (d : layout_dict) (img_objects : list image) (S : Z)
    (k : nat) (cfg : config) :
  NoDup (images d) -> images d !! k = Some cfg -> span_of cfg = 0 ->
  Forall (in_grid d) (take k (images d)) ->
  (k < length img_objects)%nat ->
  in_float_range S ->
  Forall (fun img => in_float_range (fst (size img))) img_objects ->
  calculate_layout (RDict d) img_objects S
  = (Raise ZeroDivisionError, img_objects).
Proof.
  intros Hnd Hcfg Hspan Hgrid Hk Hsp Hw. simpl. unfold explicit_layout.
  destruct (lookup_lt_is_Some_2 img_objects k Hk) as [img Himg].
  rewrite <- (take_drop k (images d)) at 2.
  rewrite for_each_app.
  rewrite (sizing_loop d S img_objects Hnd (take k (images d))
             (drop k (images d)) 0);
    [| rewrite take_drop; reflexivity | exact Hgrid
     | rewrite length_take; lia
     | apply length_replicate | apply length_replicate].
  destruct (pass1_in_range S (take k (images d)) (map size (drop 0 img_objects))
              (py_repeat (PyInt 0) (columns d)) (py_repeat 0 (rows d)))
    as [[cw rh] ->].
  { apply (in_grid_span d), Hgrid. }
  { exact Hsp. }
  { rewrite drop_0. apply widths_in_range, Hw. }
  simpl bind. rewrite (drop_S _ _ _ Hcfg). simpl for_each.
  unfold sizing_step at 1.
  rewrite (py_index_lookup (images d) k cfg Hnd Hcfg). simpl bind.
  rewrite (py_getitem_lookup img_objects _ img);
    [| lia | rewrite Nat2Z.id; exact Himg].
  simpl bind. rewrite Hspan. reflexivity.
Qed.

Lemma zero_span_witness :
  calculate_layout (RDict zero_span_rule) two_images 10
  = (Raise ZeroDivisionError, two_images).
Proof.
  apply (zero_span zero_span_rule two_images 10 1 (Config 1 2 (Some 0))).
  - simpl. refine (bool_decide_unpack _ _). vm_compute. exact I.
  - reflexivity.
  - reflexivity.
  - simpl. repeat (constructor; [unfold in_grid, span_of; simpl; lia|]).
    constructor.
  - simpl. lia.
  - reflexivity.
  - repeat constructor.
Defined.

Lemma sizing_step_row (configs : list config) (imgs : list image) (sp : Z)
    (cfg : config) (cw : list num) (rh : list Z) (st : list num * list Z) :
  sizing_step configs imgs sp cfg (cw, rh) = Ok st -> row_of cfg < py_len rh.
Proof.
  unfold sizing_step. intros H.
  destruct (py_index cfg configs) as [i|]; simpl in H; [|discriminate].
  destruct (py_getitem imgs i) as [img|]; simpl in H; [|discriminate].
  destruct (py_truediv _ _) as [sw|]; simpl in H; [|discriminate].
  destruct (map_result _ _) as [new|]; simpl in H; [|discriminate].
  destruct (py_getitem rh (row_of cfg)) as [cur|] eqn:Hrow; simpl in H;
    [|discriminate].
  exact (py_getitem_Ok_lt _ _ _ Hrow).
Qed.

Lemma sizing_loop_past_last_row (configs : list config)
    (imgs : list image) (sp n_rows : Z) (cfg : config)
    (todo : list config) (cw : list num) (rh : list Z) :
  in_float_range sp ->
  Forall (fun img => in_float_range (fst (size img))) imgs ->
  Forall (fun c => c ∈ configs /\ 1 <= cfg_col c /\ 1 <= span_of c) todo ->
  cfg ∈ todo -> 1 <= cfg_row cfg -> n_rows < cfg_row cfg ->
  length rh = Z.to_nat n_rows ->
  for_each (sizing_step configs imgs sp) todo (cw, rh) = Raise IndexError.
Proof.
  intros Hsp Hw Hall Hin Hrow Hpast. revert cw rh.
  induction todo as [|c todo IH]; intros cw rh Hrh; [inversion Hin|].
  apply Forall_cons in Hall as [(Hc & Hcol & Hspan) Hall]. simpl.
  destruct (sizing_step_cases configs imgs sp c cw rh Hsp Hw Hc Hcol Hspan)
    as [->|(cw' & rh' & Hstep & _ & Hrh' & _)]; [reflexivity|].
  rewrite Hstep. simpl. apply elem_of_cons in Hin as [->|Hin].
  - exfalso. apply sizing_step_row in Hstep.
    unfold py_len, row_of in Hstep. lia.
  - apply IH; [exact Hall | exact Hin | congruence].
Qed.

(** X11. Explicit mode, with every config having col >= 1 and span >= 1
    and with a spacing and image widths below 2^1000 in absolute value: a
    config whose row (from 1) exceeds the declared number of rows makes the
    calculator raise IndexError in its first loop; no layout is returned and
    no image has been replaced. *)
Theorem row_past_last_row (d : layout_dict) (img_objects : list image)
    (S : Z) (cfg : config) :
  Forall (fun c => 1 <= cfg_col c /\ 1 <= span_of c) (images d) ->
  in_float_range S ->
  Forall (fun img => in_float_range (fst (size img))) img_objects ->
  cfg ∈ images d -> 1 <= cfg_row cfg -> rows d < cfg_row cfg ->
  calculate_layout (RDict d) img_objects S = (Raise IndexError, img_objects).
Proof.
  intros Hall Hsp Hw Hin Hrow Hpast. simpl. unfold explicit_layout.
  rewrite (sizing_loop_past_last_row (images d) img_objects S
             (rows d) cfg);
    [reflexivity | exact Hsp | exact Hw | | exact Hin | exact Hrow
     | exact Hpast | apply length_replicate].
  apply Forall_forall. intros c Hc. split; [exact Hc|].
  rewrite Forall_forall in Hall. apply Hall, Hc.
Qed.

Lemma row_past_last_row_witness :
  calculate_layout (RDict third_row_rule) two_images 10
  = (Raise IndexError, two_images).
Proof.
  apply (row_past_last_row third_row_rule two_images 10 (Config 3 1 None)).
  - simpl. repeat (constructor; [unfold span_of; simpl; lia|]). constructor.
  - reflexivity.
  - repeat constructor.
  - simpl. right. left.
  - simpl. lia.
  - simpl. lia.
Defined.
